(** * Search algorithms of [searches/binary_search.py]

    A shallow embedding of the four search functions of the module
    ([binary_search], [binary_search_with_bounds], [exponential_search],
    [interpolation_search]) together with the properties stated about
    them.

    Python integers are unbounded, so indices and cursors are [Z].
    Elements are any type with [==] and [<] (Python [int] is [Z], [str]
    is [string], [float] is the binary64 [float]); interpolation search
    also needs their arithmetic.  Every subscript [sorted_collection[i]]
    is recorded in a trace and may raise [IndexError]; the true division
    of [interpolation_search] is recorded too and may raise.  Loops run
    on fuel; each function supplies the width of its search interval as
    fuel, and the termination section shows that this is always enough. *)

From Stdlib Require Import ZArith List Bool Lia String Ascii Floats.
From Stdlib Require Import Structures.OrdersEx Classes.RelationClasses.
From Stdlib Require QArith Lqa.
Import ListNotations.

#[local] Set Warnings "-inexact-float".

Open Scope Z_scope.

(** ** Traced, fallible computations *)

Inductive event : Type :=
| Access (i : Z)                 (* sorted_collection[i] *)
| Divide (zero_divisor : bool).  (* x / y, and whether y == 0 *)

Inductive exn : Type :=
| IndexError
| ZeroDivisionError
| ValueError
| OverflowError.

Inductive result (A : Type) : Type :=
| Ret (a : A)
| Raise (e : exn)
| Timeout.

Arguments Ret {A} a.
Arguments Raise {A} e.
Arguments Timeout {A}.

Record run (A : Type) : Type := mkRun {
  trace : list event;
  res : result A
}.

Arguments mkRun {A} trace res.
Arguments trace {A} r.
Arguments res {A} r.

Definition lift {A} (r : result A) : run A := mkRun [] r.

Definition ret {A} (a : A) : run A := lift (Ret a).

Definition raise {A} (e : exn) : run A := lift (Raise e).

Definition timeout {A} : run A := lift Timeout.

Definition log (e : event) : run unit := mkRun [e] (Ret tt).

Definition bind {A B} (m : run A) (f : A -> run B) : run B :=
  match res m with
  | Ret a => let r := f a in mkRun (trace m ++ trace r) (res r)
  | Raise e => mkRun (trace m) (Raise e)
  | Timeout => mkRun (trace m) Timeout
  end.

Notation "x <- m ;; k" := (bind m (fun x => k))
  (at level 61, m at next level, right associativity).
Notation "m ;;; k" := (bind m (fun _ => k))
  (at level 61, right associativity).

(** ** Comparable elements: [T = TypeVar('T', int, float, str)] *)

(** The bisections only use [==] and [<] on elements. *)
Class PyOrd (T : Type) : Type := {
  py_eq : T -> T -> bool;
  py_lt : T -> T -> bool
}.

(** The comparisons of a totally ordered element type.  [==] need not
    be identity ([0.0 == -0.0]) nor reflexive (NaN): the order is total
    on the values equal to themselves. *)
Class PyOrdLaws (T : Type) {ord : PyOrd T} : Prop := {
  py_eq_sym : forall a b : T, py_eq a b = true -> py_eq b a = true;
  py_eq_trans : forall a b c : T,
      py_eq a b = true -> py_eq b c = true -> py_eq a c = true;
  py_eq_not_lt : forall a b : T, py_eq a b = true -> py_lt a b = false;
  py_lt_trans : forall a b c : T,
      py_lt a b = true -> py_lt b c = true -> py_lt a c = true;
  py_lt_eq : forall a b c : T,
      py_lt a b = true -> py_eq b c = true -> py_lt a c = true;
  py_eq_lt : forall a b c : T,
      py_eq a b = true -> py_lt b c = true -> py_lt a c = true;
  py_total : forall a b : T,
      py_eq a a = true -> py_eq b b = true ->
      py_lt a b = true \/ py_eq a b = true \/ py_lt b a = true
}.

(** What [interpolation_search] asks of its elements on top of the
    comparisons: [<=], subtraction, a product with an index difference,
    and [int(x / y)].  [py_is_zero] is the test by which [/] raises
    [ZeroDivisionError]; [py_int_quotient x y] is [int(x / y)] for a
    divisor that passed it: the integer, or the exception [int] raises. *)
Class PyNum (T : Type) : Type := {
  num_ord :: PyOrd T;
  py_le : T -> T -> bool;
  py_sub : T -> T -> T;
  py_mul_index : T -> Z -> T;
  py_is_zero : T -> bool;
  py_int_quotient : T -> T -> exn + Z
}.

(** *** [int] *)

#[export] Instance PyOrd_int : PyOrd Z := {
  py_eq := Z.eqb;
  py_lt := Z.ltb
}.

(** For two integers [x / y] is the quotient rounded to a binary64 float
    and [int] truncates that float toward zero, so [int(x / y)] can
    differ from the exact quotient for large operands.  The instance is
    parametric in this function: every property of the integer searches
    holds whatever it returns.  The quotient of the position estimate
    lies between [0] and [right - left] ([int_estimate_bounded]), so it
    never leaves the range of a float. *)
Definition PyNum_int (int_quotient : Z -> Z -> Z) : PyNum Z := {|
  num_ord := PyOrd_int;
  py_le := Z.leb;
  py_sub := Z.sub;
  py_mul_index := Z.mul;
  py_is_zero := fun y => y =? 0;
  py_int_quotient := fun x y => inr (int_quotient x y)
|}.

(** *** [str] *)

#[export] Instance PyOrd_str : PyOrd string := {
  py_eq := String.eqb;
  py_lt := fun a b =>
    match String_as_OT.compare a b with Lt => true | _ => false end
}.

(** *** [float] *)

#[export] Instance PyOrd_float : PyOrd float := {
  py_eq := PrimFloat.eqb;
  py_lt := PrimFloat.ltb
}.

(** [float(n)]: the nearest binary64 value, ties to even (infinite past
    the range of a float, where Python raises; the searches convert
    [right - left] only). *)
Definition float_of_int (n : Z) : float :=
  SF2Prim (binary_normalize prec emax n 0 false).

(** [int(f)]: truncation toward zero; NaN and the infinities raise. *)
Definition int_of_float (f : float) : exn + Z :=
  match Prim2SF f with
  | S754_nan => inl ValueError
  | S754_infinity _ => inl OverflowError
  | S754_zero _ => inr 0
  | S754_finite sign m e =>
      let magnitude :=
        if 0 <=? e then Z.pos m * 2 ^ e else Z.pos m / 2 ^ (- e) in
      inr (if sign then - magnitude else magnitude)
  end.

#[export] Instance PyNum_float : PyNum float := {
  num_ord := PyOrd_float;
  py_le := PrimFloat.leb;
  py_sub := PrimFloat.sub;
  py_mul_index := fun x n => PrimFloat.mul x (float_of_int n);
  py_is_zero := fun y => PrimFloat.eqb y PrimFloat.zero;
  py_int_quotient := fun x y => int_of_float (PrimFloat.div x y)
}.

(** The numbers [interpolation_search] is correct on: a total order of
    which [<=] is the non-strict part, different elements have a nonzero
    difference, and [int] itself never raises [ZeroDivisionError]. *)
Class PyNumLaws (T : Type) {num : PyNum T} : Prop := {
  num_ord_laws :: PyOrdLaws T (ord := num_ord);
  py_le_spec : forall a b : T, py_le a b = py_lt a b || py_eq a b;
  py_sub_nonzero : forall x y : T,
      py_eq x y = false -> py_is_zero (py_sub y x) = false;
  py_int_quotient_exn : forall x y : T,
      py_int_quotient x y <> inl ZeroDivisionError
}.

(** The order of binary64 values other than NaN, as an order of integer
    triples: the infinities and zero around the finite values, which
    compare by exponent, then mantissa. *)
Definition SFrank (x : spec_float) : option (Z * Z * Z) :=
  match x with
  | S754_nan => None
  | S754_infinity true => Some (-2, 0, 0)
  | S754_finite true m e => Some (-1, - e, - Z.pos m)
  | S754_zero _ => Some (0, 0, 0)
  | S754_finite false m e => Some (1, e, Z.pos m)
  | S754_infinity false => Some (2, 0, 0)
  end.

Definition lex3 (a b : Z * Z * Z) : comparison :=
  let '(a1, a2, a3) := a in
  let '(b1, b2, b3) := b in
  match a1 ?= b1 with
  | Eq => match a2 ?= b2 with
          | Eq => a3 ?= b3
          | c => c
          end
  | c => c
  end.

Definition ltlex (a b : Z * Z * Z) : Prop :=
  let '(a1, a2, a3) := a in
  let '(b1, b2, b3) := b in
  a1 < b1 \/ (a1 = b1 /\ (a2 < b2 \/ (a2 = b2 /\ a3 < b3))).

(** A binary64 value other than the two zeros. *)
Definition SF_nonzero (x : spec_float) : Prop :=
  match x with
  | S754_zero _ => False
  | _ => True
  end.

(** ** Sequences *)

Definition len {T} (s : list T) : Z := Z.of_nat (List.length s).

(** [s[i]] as Python evaluates it: a negative index counts from the end,
    anything outside [-len, len) raises. *)
Definition py_getitem {T} (s : list T) (i : Z) : option T :=
  if (0 <=? i) && (i <? len s) then nth_error s (Z.to_nat i)
  else if (- len s <=? i) && (i <? 0) then nth_error s (Z.to_nat (i + len s))
  else None.

Definition index {T} (s : list T) (i : Z) : run T :=
  log (Access i) ;;;
  match py_getitem s i with
  | Some x => ret x
  | None => raise IndexError
  end.

(** [s[lo:hi]] for [0 <= lo <= hi]. *)
Definition py_slice {T} (s : list T) (lo hi : Z) : list T :=
  firstn (Z.to_nat (hi - lo)) (skipn (Z.to_nat lo) s).

(** ** The searches *)

Section Searches.

Context {T : Type} {ord : PyOrd T}.

(** The [while left <= right] loop of [binary_search]. *)
Fixpoint binary_search_loop (fuel : nat) (sorted_collection : list T)
    (item : T) (left right : Z) : run Z :=
  if left <=? right then
    match fuel with
    | O => timeout
    | S fuel' =>
        let mid := left + Z.shiftr (right - left) 1 in
        mid_value <- index sorted_collection mid ;;
        if py_eq mid_value item then ret mid
        else if py_lt mid_value item
             then binary_search_loop fuel' sorted_collection item (mid + 1) right
             else binary_search_loop fuel' sorted_collection item left (mid - 1)
    end
  else ret (-1).

Definition binary_search (sorted_collection : list T) (item : T) : run Z :=
  let left := 0 in
  let right := len sorted_collection - 1 in
  binary_search_loop (Z.to_nat (right - left + 1)) sorted_collection item
    left right.

(** The [while left <= right] loop of [binary_search_with_bounds]. *)
Fixpoint bounds_loop (fuel : nat) (sorted_collection : list T)
    (item : T) (left right : Z) : run Z :=
  if left <=? right then
    match fuel with
    | O => timeout
    | S fuel' =>
        let mid := left + Z.shiftr (right - left) 1 in
        mid_value <- index sorted_collection mid ;;
        if py_eq mid_value item then ret mid
        else if py_lt mid_value item
             then bounds_loop fuel' sorted_collection item (mid + 1) right
             else bounds_loop fuel' sorted_collection item left (mid - 1)
    end
  else ret (-1).

(** [right = None] is the default of the optional parameter; the default
    [left = 0] is passed explicitly. *)
Definition binary_search_with_bounds (sorted_collection : list T) (item : T)
    (left : Z) (right : option Z) : run Z :=
  let right :=
    match right with
    | None => len sorted_collection - 1
    | Some r => r
    end in
  bounds_loop (Z.to_nat (right - left + 1)) sorted_collection item left right.

(** The probing loop of [exponential_search]:
    [while bound < length and sorted_collection[bound] < item]. *)
Fixpoint exponential_probe (fuel : nat) (sorted_collection : list T)
    (item : T) (length bound : Z) : run Z :=
  if bound <? length then
    match fuel with
    | O => timeout
    | S fuel' =>
        x <- index sorted_collection bound ;;
        if py_lt x item
        then exponential_probe fuel' sorted_collection item length
               (Z.shiftl bound 1)
        else ret bound
    end
  else ret bound.

Definition exponential_search (sorted_collection : list T) (item : T)
  : run Z :=
  match sorted_collection with
  | [] => ret (-1)
  | _ :: _ =>
      let bound := 1 in
      let length := len sorted_collection in
      bound <- exponential_probe (Z.to_nat length) sorted_collection item
                 length bound ;;
      let left := Z.shiftr bound 1 in
      let right := Z.min bound (length - 1) in
      binary_search_with_bounds sorted_collection item left (Some right)
  end.

End Searches.

(** ** Interpolation search *)

Section Interpolation.

Context {T : Type} {num : PyNum T}.

(** [int(x / y)]. *)
Definition int_truediv (x y : T) : run Z :=
  log (Divide (py_is_zero y)) ;;;
  if py_is_zero y then raise ZeroDivisionError
  else match py_int_quotient x y with
       | inl e => raise e
       | inr q => ret q
       end.

(** The loop of [interpolation_search].  The chained comparison
    [sorted_collection[left] <= item <= sorted_collection[right]] reads
    [sorted_collection[right]] only when its first half holds; every
    subscript of the body is evaluated anew, in source order. *)
Fixpoint interpolation_loop (fuel : nat) (sorted_collection : list T)
    (item : T) (left right : Z) : run Z :=
  if left <=? right then
    lo <- index sorted_collection left ;;
    if py_le lo item then
      hi <- index sorted_collection right ;;
      if py_le item hi then
        match fuel with
        | O => timeout
        | S fuel' =>
            lo1 <- index sorted_collection left ;;
            hi1 <- index sorted_collection right ;;
            if py_eq lo1 hi1 then
              lo2 <- index sorted_collection left ;;
              if py_eq lo2 item then ret left else ret (-1)
            else
              lo3 <- index sorted_collection left ;;
              hi4 <- index sorted_collection right ;;
              lo4 <- index sorted_collection left ;;
              q <- int_truediv
                     (py_mul_index (py_sub item lo3) (right - left))
                     (py_sub hi4 lo4) ;;
              let pos := left + q in
              let pos := Z.max left (Z.min pos right) in
              p1 <- index sorted_collection pos ;;
              if py_eq p1 item then ret pos
              else
                p2 <- index sorted_collection pos ;;
                if py_lt p2 item
                then interpolation_loop fuel' sorted_collection item
                       (pos + 1) right
                else interpolation_loop fuel' sorted_collection item
                       left (pos - 1)
        end
      else ret (-1)
    else ret (-1)
  else ret (-1).

Definition interpolation_search (sorted_collection : list T) (item : T)
  : run Z :=
  let left := 0 in
  let right := len sorted_collection - 1 in
  interpolation_loop (Z.to_nat (right - left + 1)) sorted_collection item
    left right.

End Interpolation.

(** [interpolation_search] on integers, for a given rounding of the
    quotient. *)
Definition interpolation_search_int (int_quotient : Z -> Z -> Z)
  : list Z -> Z -> run Z :=
  interpolation_search (num := PyNum_int int_quotient).

(** ** Vocabulary of the properties *)

Section Vocabulary.

Context {T : Type} {ord : PyOrd T}.

(** A sorted sequence of a totally ordered type: every element equals
    itself (no NaN) and none is [<] its predecessor. *)
Fixpoint is_sorted (s : list T) : bool :=
  match s with
  | [] => true
  | x :: tl =>
      py_eq x x
      && match tl with
         | [] => true
         | y :: _ => negb (py_lt y x)
         end
      && is_sorted tl
  end.

(** [s[i] == v]. *)
Definition matches (s : list T) (v : T) (i : Z) : bool :=
  match py_getitem s i with
  | Some x => py_eq x v
  | None => false
  end.

(** Some element of [s] is [== v]. *)
Definition contains (s : list T) (v : T) : bool :=
  existsb (fun x => py_eq x v) s.

(** What a search over the index range [lo..hi] must return: an index of
    the range whose element is [== v], or [-1] when the range has none. *)
Definition search_post (s : list T) (v : T) (lo hi : Z) (r : result Z)
  : Prop :=
  exists i, r = Ret i /\
    ((lo <= i <= hi /\ matches s v i = true) \/
     (i = -1 /\ forall k, lo <= k <= hi -> matches s v k = false)).

(** What a search of the whole sequence must return. *)
Definition decides (s : list T) (v : T) (r : result Z) : Prop :=
  (contains s v = true ->
   exists i, r = Ret i /\ 0 <= i < len s /\ matches s v i = true) /\
  (contains s v = false -> r = Ret (-1)).

(** Two results agree on found / not found. *)
Definition agree_on_status (s : list T) (v : T) (r1 r2 : result Z)
  : Prop :=
  (contains s v = false /\ r1 = Ret (-1) /\ r2 = Ret (-1)) \/
  (contains s v = true /\
   exists i j, r1 = Ret i /\ r2 = Ret j /\
               0 <= i < len s /\ 0 <= j < len s /\
               matches s v i = true /\ matches s v j = true).

End Vocabulary.

(** The call ended in an exception raised by [int] in the position
    estimate. *)
Definition int_raised {T} {num : PyNum T} (r : result Z) : Prop :=
  exists e x y, py_int_quotient x y = inl e /\ r = Raise e.

(** Indices of the slice [s[low:...]] seen as indices of [s]. *)
Definition offset_index (low i : Z) : Z :=
  if i =? -1 then -1 else i + low.

Definition offset_event (low : Z) (e : event) : event :=
  match e with
  | Access i => Access (i + low)
  | Divide z => Divide z
  end.

Definition offset_run (low : Z) (r : run Z) : run Z :=
  mkRun (map (offset_event low) (trace r))
        (match res r with
         | Ret i => Ret (offset_index low i)
         | Raise e => Raise e
         | Timeout => Timeout
         end).

(** A subscript inside the sequence, without wrap-around. *)
Definition in_bounds {T} (s : list T) (e : event) : Prop :=
  match e with
  | Access i => 0 <= i < len s
  | Divide _ => True
  end.

(** No division has happened. *)
Definition no_division (e : event) : Prop :=
  match e with
  | Access _ => True
  | Divide _ => False
  end.

(** No division by zero has happened. *)
Definition divisor_nonzero (e : event) : Prop :=
  match e with
  | Access _ => True
  | Divide z => z = false
  end.

(** A run whose every event satisfies [P] and whose result satisfies
    [Q]. *)
Definition run_sat {A} (P : event -> Prop) (Q : result A -> Prop)
    (r : run A) : Prop :=
  Forall P (trace r) /\ Q (res r).

(** The fuel was not exhausted: the call returned or raised. *)
Definition finished {A} (r : result A) : Prop := r <> Timeout.

(** [r1] ran out of fuel, or is [r2]. *)
Definition approx {A} (r1 r2 : run A) : Prop :=
  res r1 = Timeout \/ r1 = r2.

(** ** The callers: benchmark, command-line demo *)

(** [range(n)] as a sequence: what the benchmark searches, and as
    [list(range(n))] what [test_performance] does ([len] and subscripts
    are those of the list). *)
Definition py_range (n : nat) : list Z := map Z.of_nat (seq 0 n).

(** [sorted(numbers)] on integers: the sorted rearrangement, built by
    insertion (integers equal under [==] are identical, so the order in
    which a sort places them cannot be observed). *)
Fixpoint insert_sorted (x : Z) (l : list Z) : list Z :=
  match l with
  | [] => [x]
  | y :: tl => if x <=? y then x :: l else y :: insert_sorted x tl
  end.

Definition py_sorted (numbers : list Z) : list Z :=
  fold_right insert_sorted [] numbers.

(** What the demo prints: one of its two messages, with the values it
    formats into them. *)
Inductive report : Type :=
| WasNotFound (target : Z) (collection : list Z)
| WasFoundAt (target : Z) (result : Z) (collection : list Z).

(** The demo of [__main__], from the numbers and the target as parsed
    from the two input lines. *)
Definition demo (numbers : list Z) (target : Z) : run report :=
  let collection := py_sorted numbers in
  result <- binary_search collection target ;;
  if result =? -1 then ret (WasNotFound target collection)
  else ret (WasFoundAt target result collection).

(** ** Vocabulary of the further properties *)

(** The number of events of a run: subscripts, and divisions. *)
Definition probes {A} (r : run A) : Z := Z.of_nat (List.length (trace r)).

(** A subscript inside the caller's range. *)
Definition in_range (lo hi : Z) (e : event) : Prop :=
  match e with
  | Access i => lo <= i <= hi
  | Divide _ => True
  end.

(** A result that is no false positive: [-1], or an index of the
    sequence whose element is [== v]. *)
Definition sound {T} {ord : PyOrd T} (s : list T) (v : T) (r : result Z)
  : Prop :=
  exists i, r = Ret i /\
    (i = -1 \/ (0 <= i < len s /\ matches s v i = true)).

(** Sorted without repetition: every element equals itself and is [<]
    its successor. *)
Fixpoint strictly_sorted {T} {ord : PyOrd T} (s : list T) : bool :=
  match s with
  | [] => true
  | x :: tl =>
      py_eq x x
      && match tl with
         | [] => true
         | y :: _ => py_lt x y
         end
      && strictly_sorted tl
  end.

(** The arithmetic progression [first, first + step, ...] of [n] terms. *)
Definition progression (first step : Z) (n : nat) : list Z :=
  map (fun i => first + step * Z.of_nat i) (seq 0 n).

(** ** Numbers of both types in one sequence *)

(** [List[float]] admits an int wherever it admits a float, and the
    module itself searches lists of ints; one list can hold both.  Python
    compares an int with a float exactly, by their values, but subtracts,
    multiplies and divides them after converting the int to a float,
    which rounds it, or raises [OverflowError] when the int is beyond the
    range of a float.  [-] and [*] have no exception to return here:
    [Overflowed] stands for an operand whose evaluation raised
    [OverflowError].  It is no element of a list, compares with nothing,
    and makes the division of the position estimate, the only place
    where the searches use a difference, end in that exception: the
    result of the call is Python's, and the two subscripts and the
    division recorded after such a subtraction are steps Python, having
    raised already, does not take. *)
Inductive number : Type :=
| Int (n : Z)
| Float (f : float)
| Overflowed.

(** The rational [m * 2 ^ e]. *)
Definition pos_val (m : positive) (e : Z) : QArith_base.Q :=
  if 0 <=? e then QArith_base.inject_Z (Z.pos m * 2 ^ e)
  else QArith_base.Qmake (Z.pos m) (Z.to_pos (2 ^ (- e))).

(** The exact value of a float, as a place among the rationals:
    [-1], [0] or [1] for negative infinity, a finite value and positive
    infinity, then the rational. *)
Definition SF_key (x : spec_float) : option (Z * QArith_base.Q) :=
  match x with
  | S754_nan => None
  | S754_infinity s => Some (if s then -1 else 1, QArith_base.inject_Z 0)
  | S754_zero _ => Some (0, QArith_base.inject_Z 0)
  | S754_finite s m e =>
      Some (0, if s then QArith_base.Qopp (pos_val m e) else pos_val m e)
  end.

Definition number_key (x : number) : option (Z * QArith_base.Q) :=
  match x with
  | Int n => Some (0, QArith_base.inject_Z n)
  | Float f => SF_key (Prim2SF f)
  | Overflowed => None
  end.

Definition key_eq (a b : Z * QArith_base.Q) : bool :=
  (fst a =? fst b) && QArith_base.Qeq_bool (snd a) (snd b).

Definition key_lt (a b : Z * QArith_base.Q) : bool :=
  (fst a <? fst b) || ((fst a =? fst b) && negb (QArith_base.Qle_bool (snd b) (snd a))).

(** [x == y] and [x < y] on ints and floats: the comparison of the exact
    values, false when either is NaN.  On two floats and on two ints
    these are the comparisons of [PyOrd_float] and [PyOrd_int]
    ([number_float_comparisons], [number_int_comparisons]). *)
Definition number_eq (x y : number) : bool :=
  match number_key x, number_key y with
  | Some a, Some b => key_eq a b
  | _, _ => false
  end.

Definition number_lt (x y : number) : bool :=
  match number_key x, number_key y with
  | Some a, Some b => key_lt a b
  | _, _ => false
  end.

#[export] Instance PyOrd_number : PyOrd number := {
  py_eq := number_eq;
  py_lt := number_lt
}.

(** The float an operand of mixed arithmetic is converted to: the nearest
    one, or none when the int is beyond the range of a float
    ([OverflowError]). *)
Definition to_float (x : number) : option float :=
  match x with
  | Int n =>
      let f := float_of_int n in
      if PrimFloat.is_infinity f then None else Some f
  | Float f => Some f
  | Overflowed => None
  end.

(** [x - y]: exact on two ints, the float difference otherwise. *)
Definition number_sub (x y : number) : number :=
  match x, y with
  | Int a, Int b => Int (a - b)
  | _, _ =>
      match to_float x, to_float y with
      | Some f, Some g => Float (PrimFloat.sub f g)
      | _, _ => Overflowed
      end
  end.

(** [x * k] for an int [k]. *)
Definition number_mul_index (x : number) (k : Z) : number :=
  match x with
  | Int a => Int (a * k)
  | _ =>
      match to_float x, to_float (Int k) with
      | Some f, Some g => Float (PrimFloat.mul f g)
      | _, _ => Overflowed
      end
  end.

Definition number_is_zero (y : number) : bool :=
  match y with
  | Int b => b =? 0
  | Float g => PrimFloat.eqb g PrimFloat.zero
  | Overflowed => false
  end.

(** [int(x / y)] for a nonzero [y]: on two ints the quotient as [/]
    rounds it, as for [PyNum_int]; otherwise the float quotient. *)
Definition number_int_quotient (int_quotient : Z -> Z -> Z)
    (x y : number) : exn + Z :=
  match x, y with
  | Int a, Int b => inr (int_quotient a b)
  | _, _ =>
      match to_float x, to_float y with
      | Some f, Some g => int_of_float (PrimFloat.div f g)
      | _, _ => inl OverflowError
      end
  end.

Definition PyNum_number (int_quotient : Z -> Z -> Z) : PyNum number := {|
  num_ord := PyOrd_number;
  py_le := fun x y => number_lt x y || number_eq x y;
  py_sub := number_sub;
  py_mul_index := number_mul_index;
  py_is_zero := number_is_zero;
  py_int_quotient := number_int_quotient int_quotient
|}.

(** What the comparisons of numbers obey whether or not the arithmetic
    agrees with them: a total order, of which [<=] is the non-strict
    part. *)
Class PyCmpLaws (T : Type) {num : PyNum T} : Prop := {
  cmp_ord_laws :: PyOrdLaws T (ord := num_ord);
  cmp_le_spec : forall a b : T, py_le a b = py_lt a b || py_eq a b
}.

(** The call ended in the [ZeroDivisionError] of [/]: two elements that
    are not [==] have a difference that is zero. *)
Definition zero_division {T} {num : PyNum T} (r : result Z) : Prop :=
  exists lo hi : T,
    py_eq lo hi = false /\ py_is_zero (py_sub hi lo) = true /\
    r = Raise ZeroDivisionError.

(** * Properties *)

(** ** Arithmetic of the probes *)

Lemma shiftr_1 (a : Z) : Z.shiftr a 1 = a / 2.
Proof. rewrite Z.shiftr_div_pow2 by lia. reflexivity. Qed.

Lemma shiftl_1 (a : Z) : Z.shiftl a 1 = 2 * a.
Proof. rewrite Z.shiftl_mul_pow2 by lia. lia. Qed.

Lemma mid_within (left right : Z) :
  left <= right ->
  left <= left + Z.shiftr (right - left) 1 <= right.
Proof.
  intros Hle. rewrite shiftr_1.
  Z.to_euclidean_division_equations. lia.
Qed.

(** A bisection probe lies in the interval and narrows it. *)
Lemma bisect_narrows (left right : Z) :
  left <= right ->
  let mid := left + Z.shiftr (right - left) 1 in
  left <= mid <= right /\
  right - (mid + 1) < right - left /\
  (mid - 1) - left < right - left.
Proof. intros Hle mid. pose proof (mid_within left right Hle). lia. Qed.

(** So does the clamped interpolated position, whatever the estimate. *)
Lemma clamp_narrows (left right pos : Z) :
  left <= right ->
  let pos := Z.max left (Z.min pos right) in
  left <= pos <= right /\
  right - (pos + 1) < right - left /\
  (pos - 1) - left < right - left.
Proof. intros Hle p. subst p. lia. Qed.

(** The operands of the integer position estimate, inside the loop. *)
Lemma int_estimate_bounded (item lo hi left right : Z) :
  left <= right -> lo <= item -> item <= hi -> lo <> hi ->
  0 < hi - lo /\
  0 <= (item - lo) * (right - left) <= (hi - lo) * (right - left).
Proof. intros Hlr Hlo Hhi Hne. nia. Qed.

(** A doubling grows the bound. *)
Lemma doubling_grows (bound : Z) :
  1 <= bound -> bound < Z.shiftl bound 1 /\ Z.shiftl bound 1 = 2 * bound.
Proof. intros Hb. rewrite shiftl_1. lia. Qed.

(** ** The monad *)

Lemma bind_ret {A B} (m : run A) (f : A -> run B) (a : A) :
  res m = Ret a ->
  bind m f = mkRun (trace m ++ trace (f a)) (res (f a)).
Proof. intros E. unfold bind. rewrite E. reflexivity. Qed.

Lemma index_some {T} (s : list T) (i : Z) (x : T) :
  py_getitem s i = Some x -> index s i = mkRun [Access i] (Ret x).
Proof. intros E. unfold index. rewrite E. reflexivity. Qed.

Lemma index_none {T} (s : list T) (i : Z) :
  py_getitem s i = None -> index s i = mkRun [Access i] (Raise IndexError).
Proof. intros E. unfold index. rewrite E. reflexivity. Qed.

Lemma bind_index_some {T B} (s : list T) (i : Z) (x : T) (f : T -> run B) :
  py_getitem s i = Some x ->
  bind (index s i) f = mkRun (Access i :: trace (f x)) (res (f x)).
Proof. intros E. rewrite (index_some _ _ _ E). reflexivity. Qed.

Lemma bind_index_none {T B} (s : list T) (i : Z) (f : T -> run B) :
  py_getitem s i = None ->
  bind (index s i) f = mkRun [Access i] (Raise IndexError).
Proof. intros E. rewrite (index_none _ _ E). reflexivity. Qed.

(** ** Subscripts *)

Lemma getitem_nonneg {T} (s : list T) (i : Z) :
  0 <= i < len s -> py_getitem s i = nth_error s (Z.to_nat i).
Proof.
  intros Hi. unfold py_getitem.
  replace (0 <=? i) with true by (symmetry; apply Z.leb_le; lia).
  replace (i <? len s) with true by (symmetry; apply Z.ltb_lt; lia).
  reflexivity.
Qed.

Lemma getitem_defined {T} (s : list T) (i : Z) :
  0 <= i < len s -> exists x, py_getitem s i = Some x.
Proof.
  intros Hi. rewrite getitem_nonneg by assumption.
  destruct (nth_error s (Z.to_nat i)) as [x|] eqn:E.
  - now exists x.
  - apply nth_error_None in E. unfold len in Hi. lia.
Qed.

(** ** The module's demo and its test suite, evaluated *)

(** [search([0, 5, 7, 10, 15], 10)] for the four searches. *)
Example demo_all_four :
  res (binary_search [0; 5; 7; 10; 15] 10) = Ret 3 /\
  res (binary_search_with_bounds [0; 5; 7; 10; 15] 10 0 None) = Ret 3 /\
  res (exponential_search [0; 5; 7; 10; 15] 10) = Ret 3 /\
  res (interpolation_search_int Z.quot [0; 5; 7; 10; 15] 10) = Ret 3.
Proof. repeat split. Qed.

Example test_binary_search_edge_cases :
  res (binary_search (@nil Z) 1) = Ret (-1) /\
  res (binary_search [1] 1) = Ret 0 /\
  res (binary_search [1] 2) = Ret (-1).
Proof. repeat split. Qed.

Example test_binary_search_with_bounds :
  res (binary_search_with_bounds [1; 2; 3; 4; 5; 6] 3 0 None) = Ret 2 /\
  res (binary_search_with_bounds [1; 2; 3; 4; 5; 6] 3 0 (Some 2)) = Ret 2 /\
  res (binary_search_with_bounds [1; 2; 3; 4; 5; 6] 3 3 (Some 5))
  = Ret (-1) /\
  res (binary_search_with_bounds [1; 2; 3; 4; 5; 6] 3 4 (Some 2))
  = Ret (-1).
Proof. repeat split. Qed.

Example test_exponential_search :
  res (exponential_search [1; 2; 3; 4; 5; 6] 1) = Ret 0 /\
  res (exponential_search [1; 2; 3; 4; 5; 6] 6) = Ret 5 /\
  res (exponential_search (@nil Z) 1) = Ret (-1) /\
  res (exponential_search [1] 1) = Ret 0.
Proof. repeat split. Qed.

Example test_interpolation_search :
  res (interpolation_search [1.0; 2.5; 3.7; 4.2; 5.9]%float 1.0%float)
  = Ret 0 /\
  res (interpolation_search [1.0; 2.5; 3.7; 4.2; 5.9]%float 5.9%float)
  = Ret 4 /\
  res (interpolation_search [1.0; 2.5; 3.7; 4.2; 5.9]%float 3.7%float)
  = Ret 2 /\
  res (interpolation_search [1.0; 2.5; 3.7; 4.2; 5.9]%float 6.0%float)
  = Ret (-1).
Proof. repeat split. Qed.

Example test_type_compatibility :
  res (binary_search ["apple"; "banana"; "cherry"; "date"]%string
         "apple"%string) = Ret 0 /\
  res (binary_search ["apple"; "banana"; "cherry"; "date"]%string
         "date"%string) = Ret 3 /\
  res (binary_search ["apple"; "banana"; "cherry"; "date"]%string
         "fig"%string) = Ret (-1) /\
  res (binary_search [1.0; 2.5; 3.7; 4.2; 5.9]%float 1.0%float) = Ret 0 /\
  res (binary_search [1.0; 2.5; 3.7; 4.2; 5.9]%float 5.9%float) = Ret 4.
Proof. repeat split. Qed.

(** ** Laws of the element types *)

#[export] Instance PyOrdLaws_int : PyOrdLaws Z.
Proof.
  split; cbn [py_eq py_lt PyOrd_int]; intros;
    rewrite ?Z.eqb_eq, ?Z.ltb_lt, ?Z.ltb_ge in *; lia.
Qed.

Lemma str_lt_iff (a b : string) :
  py_lt a b = true <-> String_as_OT.lt a b.
Proof.
  cbn [py_lt PyOrd_str]. unfold String_as_OT.lt.
  destruct (String_as_OT.compare a b); split; congruence.
Qed.

#[export] Instance PyOrdLaws_str : PyOrdLaws string.
Proof.
  assert (Hirr : forall a : string, py_lt a a = false).
  { intros a. destruct (py_lt a a) eqn:E; [|reflexivity].
    apply str_lt_iff in E. exfalso. exact (StrictOrder_Irreflexive _ E). }
  split.
  - intros a b E. apply String.eqb_eq in E. subst. apply String.eqb_refl.
  - intros a b c E1 E2. apply String.eqb_eq in E1, E2. subst.
    apply String.eqb_refl.
  - intros a b E. apply String.eqb_eq in E. subst. apply Hirr.
  - intros a b c L1 L2. apply str_lt_iff in L1, L2. apply str_lt_iff.
    exact (StrictOrder_Transitive a b c L1 L2).
  - intros a b c L E. apply String.eqb_eq in E. now subst.
  - intros a b c E L. apply String.eqb_eq in E. now subst.
  - intros a b _ _.
    destruct (String_as_OT.compare_spec a b) as [Heq|Hlt|Hgt].
    + right; left. cbn [py_eq PyOrd_str]. now apply String.eqb_eq.
    + left. now apply str_lt_iff.
    + right; right. now apply str_lt_iff.
Qed.

(** ** Binary64: the order of the values *)

Lemma SFcompare_rank (x y : spec_float) :
  SFcompare x y
  = match SFrank x, SFrank y with
    | Some a, Some b => Some (lex3 a b)
    | _, _ => None
    end.
Proof.
  destruct x as [sx|sx| |sx mx ex], y as [sy|sy| |sy my ey];
    try destruct sx; try destruct sy; try reflexivity;
    cbn [SFcompare SFrank lex3 Z.compare].
  rewrite Z.compare_opp, (Z.compare_antisym ex ey).
  destruct (ex ?= ey); reflexivity.
Qed.

Lemma lex3_spec (a b : Z * Z * Z) :
  match lex3 a b with
  | Eq => a = b
  | Lt => ltlex a b
  | Gt => ltlex b a
  end.
Proof.
  destruct a as [[a1 a2] a3], b as [[b1 b2] b3]. cbn [lex3 ltlex].
  destruct (Z.compare_spec a1 b1), (Z.compare_spec a2 b2),
    (Z.compare_spec a3 b3); subst; try reflexivity; lia.
Qed.

(** The float comparisons, read on ranks. *)
Lemma float_eqb_rank (x y : float) :
  PrimFloat.eqb x y = true <->
  exists a, SFrank (Prim2SF x) = Some a /\ SFrank (Prim2SF y) = Some a.
Proof.
  rewrite FloatAxioms.eqb_spec. unfold SFeqb. rewrite SFcompare_rank.
  destruct (SFrank (Prim2SF x)) as [a|], (SFrank (Prim2SF y)) as [b|];
    try (split; [discriminate | intros [c [H1 H2]]; discriminate]).
  pose proof (lex3_spec a b) as Hs.
  destruct (lex3 a b); split; try discriminate.
  - intros _. exists a. now subst.
  - reflexivity.
  - intros [c [H1 H2]]. inversion H1; inversion H2; subst.
    destruct c as [[c1 c2] c3]. cbn [ltlex] in Hs. lia.
  - intros [c [H1 H2]]. inversion H1; inversion H2; subst.
    destruct c as [[c1 c2] c3]. cbn [ltlex] in Hs. lia.
Qed.

Lemma float_ltb_rank (x y : float) :
  PrimFloat.ltb x y = true <->
  exists a b, SFrank (Prim2SF x) = Some a /\ SFrank (Prim2SF y) = Some b /\
              ltlex a b.
Proof.
  rewrite FloatAxioms.ltb_spec. unfold SFltb. rewrite SFcompare_rank.
  destruct (SFrank (Prim2SF x)) as [a|], (SFrank (Prim2SF y)) as [b|];
    try (split; [discriminate | intros [c [d [H1 [H2 _]]]]; discriminate]).
  pose proof (lex3_spec a b) as Hs.
  destruct (lex3 a b); split; try discriminate; try reflexivity.
  - intros [c [d [H1 [H2 Hl]]]]. inversion H1; inversion H2; subst.
    destruct d as [[d1 d2] d3]. cbn [ltlex] in Hl. lia.
  - intros _. now exists a, b.
  - intros [c [d [H1 [H2 Hl]]]]. inversion H1; inversion H2; subst.
    destruct c as [[c1 c2] c3], d as [[d1 d2] d3]. cbn [ltlex] in Hs, Hl.
    lia.
Qed.

Lemma ltlex_trans (a b c : Z * Z * Z) : ltlex a b -> ltlex b c -> ltlex a c.
Proof.
  destruct a as [[a1 a2] a3], b as [[b1 b2] b3], c as [[c1 c2] c3].
  cbn [ltlex]. lia.
Qed.

Lemma ltlex_irrefl (a : Z * Z * Z) : ~ ltlex a a.
Proof. destruct a as [[a1 a2] a3]. cbn [ltlex]. lia. Qed.

Lemma ltlex_total (a b : Z * Z * Z) : ltlex a b \/ a = b \/ ltlex b a.
Proof.
  destruct a as [[a1 a2] a3], b as [[b1 b2] b3]. cbn [ltlex].
  assert (H : a1 < b1 \/ b1 < a1 \/ a1 = b1) by lia.
  assert (H2 : a2 < b2 \/ b2 < a2 \/ a2 = b2) by lia.
  assert (H3 : a3 < b3 \/ b3 < a3 \/ a3 = b3) by lia.
  destruct H as [|[|]], H2 as [|[|]], H3 as [|[|]]; subst;
    try (left; lia); try (right; right; lia).
  right; left; reflexivity.
Qed.

#[export] Instance PyOrdLaws_float : PyOrdLaws float.
Proof.
  split; cbn [py_eq py_lt PyOrd_float].
  - intros a b E. apply float_eqb_rank in E. destruct E as [r [Ha Hb]].
    apply float_eqb_rank. now exists r.
  - intros a b c E1 E2. apply float_eqb_rank in E1, E2.
    destruct E1 as [r [Ha Hb]], E2 as [r' [Hb' Hc]].
    apply float_eqb_rank. exists r. split; congruence.
  - intros a b E. destruct (PrimFloat.ltb a b) eqn:L; [|reflexivity].
    apply float_eqb_rank in E. apply float_ltb_rank in L.
    destruct E as [r [Ha Hb]], L as [ra [rb [Ha' [Hb' Hl]]]].
    exfalso. apply (ltlex_irrefl r). congruence.
  - intros a b c L1 L2. apply float_ltb_rank in L1, L2.
    destruct L1 as [ra [rb [Ha [Hb H1]]]], L2 as [rb' [rc [Hb' [Hc H2]]]].
    apply float_ltb_rank. exists ra, rc. repeat split; try assumption.
    apply (ltlex_trans ra rb rc); congruence.
  - intros a b c L E. apply float_ltb_rank in L. apply float_eqb_rank in E.
    destruct L as [ra [rb [Ha [Hb H1]]]], E as [r [Hb' Hc]].
    apply float_ltb_rank. exists ra, rb. repeat split; congruence.
  - intros a b c E L. apply float_eqb_rank in E. apply float_ltb_rank in L.
    destruct E as [r [Ha Hb]], L as [rb [rc [Hb' [Hc H1]]]].
    apply float_ltb_rank. exists rb, rc. repeat split; congruence.
  - intros a b Ea Eb. apply float_eqb_rank in Ea, Eb.
    destruct Ea as [ra [Ha _]], Eb as [rb [Hb _]].
    destruct (ltlex_total ra rb) as [L | [E | L]].
    + left. apply float_ltb_rank. now exists ra, rb.
    + right; left. apply float_eqb_rank. exists ra. split; congruence.
    + right; right. apply float_ltb_rank. now exists rb, ra.
Qed.

(** ** Binary64: different values have a nonzero difference *)

Lemma digits2_pos_bounds (m : positive) :
  2 ^ (Zpos (digits2_pos m) - 1) <= Zpos m < 2 ^ Zpos (digits2_pos m).
Proof.
  induction m as [m IH | m IH |]; cbn [digits2_pos].
  - rewrite Pos2Z.inj_succ.
    replace (Z.succ (Z.pos (digits2_pos m)) - 1)
      with (Z.succ (Z.pos (digits2_pos m) - 1)) by lia.
    rewrite !Z.pow_succ_r by lia. lia.
  - rewrite Pos2Z.inj_succ.
    replace (Z.succ (Z.pos (digits2_pos m)) - 1)
      with (Z.succ (Z.pos (digits2_pos m) - 1)) by lia.
    rewrite !Z.pow_succ_r by lia. lia.
  - cbn. lia.
Qed.

Lemma digits2_pos_iter_xO (m d : positive) :
  digits2_pos (Pos.iter xO m d) = (digits2_pos m + d)%positive.
Proof.
  induction d as [|d IH] using Pos.peano_ind.
  - cbn. lia.
  - rewrite Pos.iter_succ. cbn [digits2_pos]. rewrite IH. lia.
Qed.

Lemma shr_1_m (r : shr_record) :
  0 <= shr_m r -> shr_m (shr_1 r) = shr_m r / 2.
Proof.
  destruct r as [m r s]. cbn [shr_m]. intros Hm.
  destruct m as [|[p|p|]|p]; cbn [shr_1 shr_m]; try lia;
    try reflexivity; Z.to_euclidean_division_equations; lia.
Qed.

Lemma pow2_xO (p : positive) : 2 ^ Z.pos p~0 = 2 ^ Z.pos p * 2 ^ Z.pos p.
Proof. rewrite <- Z.pow_add_r by lia. f_equal. lia. Qed.

Lemma pow2_xI (p : positive) :
  2 ^ Z.pos p~1 = 2 * (2 ^ Z.pos p * 2 ^ Z.pos p).
Proof.
  rewrite <- Z.pow_add_r by lia.
  replace (Z.pos p~1) with (Z.succ (Z.pos p + Z.pos p)) by lia.
  now rewrite Z.pow_succ_r by lia.
Qed.

Lemma pow2_pos (k : Z) : 0 <= k -> 0 < 2 ^ k.
Proof. intros Hk. apply Z.pow_pos_nonneg; lia. Qed.

Lemma iter_shr_1_m (p : positive) :
  forall r, 0 <= shr_m r ->
  shr_m (iter_pos shr_1 p r) = shr_m r / 2 ^ Zpos p.
Proof.
  assert (Hnn : forall a k, 0 <= a -> 0 <= a / 2 ^ Zpos k).
  { intros a k Ha. apply Z.div_pos; [assumption|]. apply pow2_pos; lia. }
  assert (Hhalf : forall a, 0 <= a -> 0 <= a / 2).
  { intros a Ha. Z.to_euclidean_division_equations. lia. }
  induction p as [p IH | p IH |]; intros r Hr; cbn [iter_pos].
  - assert (H1 : 0 <= shr_m (shr_1 r))
      by (rewrite shr_1_m by assumption; now apply Hhalf).
    assert (H2 : 0 <= shr_m (iter_pos shr_1 p (shr_1 r)))
      by (rewrite IH by assumption; now apply Hnn).
    rewrite (IH _ H2), (IH _ H1), shr_1_m by assumption.
    pose proof (pow2_pos (Z.pos p) ltac:(lia)).
    rewrite !Z.div_div by lia. now rewrite pow2_xI.
  - assert (H1 : 0 <= shr_m (iter_pos shr_1 p r))
      by (rewrite IH by assumption; now apply Hnn).
    rewrite (IH _ H1), (IH _ Hr).
    pose proof (pow2_pos (Z.pos p) ltac:(lia)).
    rewrite !Z.div_div by lia. now rewrite pow2_xO.
  - now apply shr_1_m.
Qed.

Lemma shr_record_of_loc_m (m : Z) (l : location) :
  shr_m (shr_record_of_loc m l) = m.
Proof. destruct l as [|[]]; reflexivity. Qed.

(** A right shift by the format's exponent function leaves a positive
    mantissa positive. *)
Lemma shr_fexp_positive (m : positive) (e : Z) (l : location) :
  emin <= e ->
  1 <= shr_m (fst (shr_fexp prec emax (Zpos m) e l)) /\
  emin <= snd (shr_fexp prec emax (Zpos m) e l).
Proof.
  intros He. unfold shr_fexp, shr. cbn [Zdigits2].
  pose proof (digits2_pos_bounds m) as Hd.
  set (d := Z.pos (digits2_pos m)) in *.
  assert (Hn : fexp prec emax (d + e) - e <= d - 1).
  { unfold fexp, SpecFloat.emin, prec, emax in *. lia. }
  destruct (fexp prec emax (d + e) - e) as [|n|n] eqn:En; cbn [fst snd];
    rewrite ?shr_record_of_loc_m; try (split; lia).
  rewrite iter_shr_1_m by (rewrite shr_record_of_loc_m; lia).
  rewrite shr_record_of_loc_m. split; [|lia].
  apply Z.div_le_lower_bound; [apply pow2_pos; lia|].
  rewrite Z.mul_1_r.
  apply Z.le_trans with (2 ^ (d - 1)); [|lia].
  apply Z.pow_le_mono_r; lia.
Qed.

Lemma round_nearest_even_ge (mx : Z) (lx : location) :
  mx <= round_nearest_even mx lx.
Proof.
  destruct lx as [|[]]; cbn [round_nearest_even]; try lia.
  destruct (Z.even mx); lia.
Qed.

Lemma binary_round_aux_nonzero (sx : bool) (m : positive) (e : Z)
    (l : location) :
  emin <= e -> SF_nonzero (binary_round_aux prec emax sx (Zpos m) e l).
Proof.
  intros He. unfold binary_round_aux.
  destruct (shr_fexp_positive m e l He) as [Hm1 He1].
  destruct (shr_fexp prec emax (Z.pos m) e l) as [mrs1 e1].
  cbn [fst snd] in Hm1, He1.
  pose proof (round_nearest_even_ge (shr_m mrs1) (loc_of_shr_record mrs1))
    as Hr.
  destruct (round_nearest_even (shr_m mrs1) (loc_of_shr_record mrs1))
    as [|m2|m2]; try lia.
  destruct (shr_fexp_positive m2 e1 loc_Exact He1) as [Hm2 _].
  destruct (shr_fexp prec emax (Z.pos m2) e1 loc_Exact) as [mrs2 e2].
  cbn [fst] in Hm2.
  destruct (shr_m mrs2) as [|m3|m3]; try lia.
  destruct (e2 <=? emax - prec); exact I.
Qed.

Lemma binary_round_nonzero (sx : bool) (m : positive) (e : Z) :
  emin <= e -> SF_nonzero (binary_round prec emax sx m e).
Proof.
  intros He. unfold binary_round, shl_align.
  destruct (fexp prec emax (Z.pos (digits2_pos m) + e) - e) as [|d|d] eqn:Ed;
    apply binary_round_aux_nonzero; try assumption.
  unfold fexp. lia.
Qed.

Lemma binary_normalize_nonzero (m e : Z) (szero : bool) :
  m <> 0 -> emin <= e -> SF_nonzero (binary_normalize prec emax m e szero).
Proof.
  intros Hm He. destruct m as [|p|p]; [congruence| |];
    now apply binary_round_nonzero.
Qed.

(** Aligned mantissas. *)
Lemma canonical_exponent (m : positive) (e : Z) :
  canonical_mantissa prec emax m e = true ->
  fexp prec emax (Z.pos (digits2_pos m) + e) = e /\ emin <= e.
Proof.
  unfold canonical_mantissa. intros H. apply Z.eqb_eq in H.
  split; [exact H|]. unfold fexp in H. lia.
Qed.

Lemma aligned_equal (m1 m2 : positive) (e1 e2 : Z) :
  canonical_mantissa prec emax m1 e1 = true ->
  canonical_mantissa prec emax m2 e2 = true ->
  fst (shl_align m1 e1 (Z.min e1 e2)) = fst (shl_align m2 e2 (Z.min e1 e2)) ->
  e1 = e2 /\ m1 = m2.
Proof.
  intros C1 C2.
  destruct (canonical_exponent _ _ C1) as [F1 _].
  destruct (canonical_exponent _ _ C2) as [F2 _].
  unfold shl_align.
  destruct (Z.min e1 e2 - e1) as [|d1|d1] eqn:E1;
    destruct (Z.min e1 e2 - e2) as [|d2|d2] eqn:E2;
    cbn [fst]; try lia; intros Hm.
  - exfalso. assert (Hd : digits2_pos m1 = (digits2_pos m2 + d2)%positive)
      by (rewrite Hm; apply digits2_pos_iter_xO).
    assert (Z.pos (digits2_pos m1) + e1 = Z.pos (digits2_pos m2) + e2)
      by (rewrite Hd; lia).
    rewrite H in F1. lia.
  - exfalso. assert (Hd : digits2_pos m2 = (digits2_pos m1 + d1)%positive)
      by (rewrite <- Hm; apply digits2_pos_iter_xO).
    assert (Z.pos (digits2_pos m1) + e1 = Z.pos (digits2_pos m2) + e2)
      by (rewrite Hd; lia).
    rewrite H in F1. lia.
Qed.

Lemma SFcompare_finite_refl (s : bool) (m : positive) (e : Z) :
  SFcompare (S754_finite s m e) (S754_finite s m e) = Some Eq.
Proof.
  cbn [SFcompare]. rewrite Z.compare_refl.
  change (Pos.compare_cont Eq m m) with (Pos.compare m m).
  rewrite Pos.compare_refl. destruct s; reflexivity.
Qed.

(** Different values have a nonzero difference. *)
Lemma SFsub_nonzero (x y : spec_float) :
  valid_binary x = true -> valid_binary y = true ->
  SFeqb x y = false ->
  SF_nonzero (SFsub prec emax y x).
Proof.
  intros Vx Vy Hne.
  destruct x as [sx|sx| |sx mx ex], y as [sy|sy| |sy my ey];
    cbn [SFsub]; try exact I;
    try (destruct sx, sy; (exact I || discriminate Hne)).
  cbn [valid_binary] in Vx, Vy. unfold bounded in Vx, Vy.
  apply andb_prop in Vx, Vy. destruct Vx as [Cx _], Vy as [Cy _].
  destruct (canonical_exponent _ _ Cx) as [_ Ex].
  destruct (canonical_exponent _ _ Cy) as [_ Ey].
  apply binary_normalize_nonzero; [|lia].
  intros Hz.
  assert (Hs : sx = sy).
  { destruct sx, sy; cbn [cond_Zopp] in Hz; try reflexivity; lia. }
  subst sy.
  assert (Hm : fst (shl_align my ey (Z.min ey ex))
               = fst (shl_align mx ex (Z.min ey ex)))
    by (destruct sx; cbn [cond_Zopp] in Hz; lia).
  destruct (aligned_equal my mx ey ex Cy Cx Hm) as [He Hmm]. subst.
  unfold SFeqb in Hne. rewrite SFcompare_finite_refl in Hne. discriminate.
Qed.

Lemma float_sub_nonzero (x y : float) :
  PrimFloat.eqb x y = false ->
  PrimFloat.eqb (PrimFloat.sub y x) PrimFloat.zero = false.
Proof.
  rewrite !FloatAxioms.eqb_spec, FloatAxioms.sub_spec. intros Hne.
  pose proof (SFsub_nonzero (Prim2SF x) (Prim2SF y)
                (Prim2SF_valid x) (Prim2SF_valid y) Hne) as Hnz.
  unfold SF64sub.
  change (Prim2SF PrimFloat.zero) with (S754_zero false).
  destruct (SFsub prec emax (Prim2SF y) (Prim2SF x)) as [s|s| |s m e];
    try reflexivity; try contradiction.
  - destruct s; reflexivity.
  - destruct s; reflexivity.
Qed.

(** ** Laws of the numeric element types *)

#[export] Instance PyNumLaws_float : PyNumLaws float.
Proof.
  split; cbn [py_eq py_lt py_le py_sub py_is_zero py_int_quotient num_ord
              PyNum_float PyOrd_float].
  - exact PyOrdLaws_float.
  - intros a b.
    rewrite FloatAxioms.leb_spec, FloatAxioms.ltb_spec, FloatAxioms.eqb_spec.
    unfold SFleb, SFltb, SFeqb.
    destruct (SFcompare (Prim2SF a) (Prim2SF b)) as [[| |]|]; reflexivity.
  - exact float_sub_nonzero.
  - intros x y. unfold int_of_float.
    destruct (Prim2SF (x / y)) as [sg|sg| |sg m e]; discriminate.
Qed.

Lemma PyNumLaws_int (int_quotient : Z -> Z -> Z) :
  PyNumLaws Z (num := PyNum_int int_quotient).
Proof.
  split; cbn [py_eq py_lt py_le py_sub py_is_zero py_int_quotient num_ord
              PyNum_int PyOrd_int].
  - exact PyOrdLaws_int.
  - intros a b. destruct (a <=? b) eqn:L, (a <? b) eqn:L', (a =? b) eqn:E;
      try reflexivity; exfalso;
      rewrite ?Z.leb_le, ?Z.leb_gt, ?Z.ltb_lt, ?Z.ltb_ge, ?Z.eqb_eq,
        ?Z.eqb_neq in *; lia.
  - intros x y Hne. apply Z.eqb_neq in Hne. apply Z.eqb_neq. lia.
  - discriminate.
Qed.

(** *** Numbers of both types *)

(** The comparisons of every lawful number type obey [PyCmpLaws]. *)
#[export] Instance PyNumLaws_cmp {T : Type} {num : PyNum T}
    {laws : PyNumLaws T} : PyCmpLaws T.
Proof. split; [exact num_ord_laws | exact py_le_spec]. Qed.

Section NumberOrder.

Import QArith Lqa.
Local Open Scope Z_scope.

Lemma key_eq_spec (a b : Z * Q) :
  key_eq a b = true <-> fst a = fst b /\ (snd a == snd b)%Q.
Proof.
  unfold key_eq. rewrite andb_true_iff, Z.eqb_eq, Qeq_bool_iff.
  reflexivity.
Qed.

Lemma key_lt_spec (a b : Z * Q) :
  key_lt a b = true <->
  (fst a < fst b)%Z \/ (fst a = fst b /\ (snd a < snd b)%Q).
Proof.
  unfold key_lt.
  rewrite orb_true_iff, andb_true_iff, Z.ltb_lt, Z.eqb_eq, negb_true_iff.
  assert (H : Qle_bool (snd b) (snd a) = false <-> (snd a < snd b)%Q).
  { destruct (Qle_bool (snd b) (snd a)) eqn:E.
    - apply Qle_bool_iff in E. split; [discriminate | intros; lra].
    - split; [intros _ | reflexivity].
      destruct (Qlt_le_dec (snd a) (snd b)) as [L | L]; [exact L|].
      apply Qle_bool_iff in L. congruence. }
  rewrite H. reflexivity.
Qed.

Lemma number_eq_spec (x y : number) :
  number_eq x y = true <->
  exists a b, number_key x = Some a /\ number_key y = Some b /\
              fst a = fst b /\ (snd a == snd b)%Q.
Proof.
  unfold number_eq.
  destruct (number_key x) as [a|], (number_key y) as [b|];
    try (split; [discriminate | intros [a' [b' [? [? _]]]]; discriminate]).
  rewrite key_eq_spec. split.
  - intros H. now exists a, b.
  - intros [a' [b' [Ea [Eb H]]]]. inversion Ea; inversion Eb; now subst.
Qed.

Lemma number_lt_spec (x y : number) :
  number_lt x y = true <->
  exists a b, number_key x = Some a /\ number_key y = Some b /\
              ((fst a < fst b)%Z \/ (fst a = fst b /\ (snd a < snd b)%Q)).
Proof.
  unfold number_lt.
  destruct (number_key x) as [a|], (number_key y) as [b|];
    try (split; [discriminate | intros [a' [b' [? [? _]]]]; discriminate]).
  rewrite key_lt_spec. split.
  - intros H. now exists a, b.
  - intros [a' [b' [Ea [Eb H]]]]. inversion Ea; inversion Eb; now subst.
Qed.

Ltac number_keys :=
  repeat match goal with
  | H : number_eq _ _ = true |- _ =>
      apply number_eq_spec in H; destruct H as [? [? [? [? [? ?]]]]]
  | H : number_lt _ _ = true |- _ =>
      apply number_lt_spec in H; destruct H as [? [? [? [? ?]]]]
  | H : number_key ?x = Some _, H' : number_key ?x = Some _ |- _ =>
      rewrite H in H'; inversion H'; subst; clear H'
  end.

#[export] Instance PyOrdLaws_number : PyOrdLaws number.
Proof.
  split; cbn [py_eq py_lt PyOrd_number].
  - intros a b H. number_keys. apply number_eq_spec.
    eexists _, _.
    split; [eassumption | split; [eassumption | split; [lia | lra]]].
  - intros a b c H1 H2. number_keys. apply number_eq_spec.
    eexists _, _.
    split; [eassumption | split; [eassumption | split; [lia | lra]]].
  - intros a b H. destruct (number_lt a b) eqn:L; [|reflexivity].
    number_keys. exfalso.
    match goal with H : _ \/ _ |- _ => destruct H as [? | [? ?]] end;
      [lia | lra].
  - intros a b c H1 H2. number_keys. apply number_lt_spec.
    eexists _, _. split; [eassumption | split; [eassumption|]].
    repeat match goal with H : _ \/ _ |- _ => destruct H as [? | [? ?]] end;
      try (left; lia).
    right. split; [lia | lra].
  - intros a b c H1 H2. number_keys. apply number_lt_spec.
    eexists _, _. split; [eassumption | split; [eassumption|]].
    repeat match goal with H : _ \/ _ |- _ => destruct H as [? | [? ?]] end;
      try (left; lia).
    right. split; [lia | lra].
  - intros a b c H1 H2. number_keys. apply number_lt_spec.
    eexists _, _. split; [eassumption | split; [eassumption|]].
    repeat match goal with H : _ \/ _ |- _ => destruct H as [? | [? ?]] end;
      try (left; lia).
    right. split; [lia | lra].
  - intros a b Ha Hb. number_keys.
    match goal with
    | Ka : number_key a = Some ?ka, Kb : number_key b = Some ?kb |- _ =>
        destruct (Z.lt_trichotomy (fst ka) (fst kb)) as [L | [E | L]];
        [left; apply number_lt_spec; exists ka, kb; auto
        |destruct (Q_dec (snd ka) (snd kb)) as [[L | L] | E']
        |right; right; apply number_lt_spec; exists kb, ka; auto]
    end.
    + left. apply number_lt_spec. eexists _, _.
      split; [eassumption | split; [eassumption | right; now split]].
    + right. right. apply number_lt_spec. eexists _, _.
      split; [eassumption | split; [eassumption | right; split; [lia | exact L]]].
    + right. left. apply number_eq_spec. eexists _, _.
      split; [eassumption | split; [eassumption | now split]].
Qed.

(** *** Exact values and the order of floats *)

Lemma pos_val_scaled (m : positive) (e K : Z) :
  0 <= K -> 0 <= e + K ->
  (pos_val m e * inject_Z (2 ^ K) == inject_Z (Z.pos m * 2 ^ (e + K)))%Q.
Proof.
  intros HK HeK. unfold pos_val. destruct (0 <=? e) eqn:He.
  - apply Z.leb_le in He. rewrite <- inject_Z_mult.
    rewrite Z.pow_add_r by lia. rewrite Z.mul_assoc. reflexivity.
  - apply Z.leb_gt in He. unfold Qeq, Qmult, inject_Z. cbn [Qnum Qden].
    rewrite Pos.mul_1_r, Z.mul_1_r.
    rewrite Z2Pos.id by (apply Z.pow_pos_nonneg; lia).
    rewrite <- Z.mul_assoc. f_equal.
    rewrite <- Z.pow_add_r by lia. f_equal. lia.
Qed.

Lemma pos_val_positive (m : positive) (e : Z) : (0 < pos_val m e)%Q.
Proof.
  unfold pos_val. destruct (0 <=? e) eqn:He.
  - apply Z.leb_le in He. unfold Qlt, inject_Z. cbn [Qnum Qden].
    pose proof (Z.pow_pos_nonneg 2 e ltac:(lia) He). nia.
  - unfold Qlt. cbn [Qnum Qden inject_Z]. lia.
Qed.

(** A float's mantissa has at most 53 bits, and exactly 53 above the
    least exponent. *)
Lemma canonical_mantissa_bounds (m : positive) (e : Z) :
  canonical_mantissa prec emax m e = true ->
  Z.pos m < 2 ^ 53 /\ (emin < e -> 2 ^ 52 <= Z.pos m) /\ emin <= e.
Proof.
  intros Hc. destruct (canonical_exponent m e Hc) as [Hf He].
  pose proof (digits2_pos_bounds m) as [Hlo Hhi].
  unfold fexp, SpecFloat.emin in Hf. cbv [prec emax] in Hf.
  set (d := Z.pos (digits2_pos m)) in *.
  assert (Hd : d <= 53) by lia.
  split; [|split; [|exact He]]; unfold SpecFloat.emin; cbv [prec emax].
  - apply (Z.lt_le_trans _ _ _ Hhi). apply Z.pow_le_mono_r; lia.
  - intros Hgt. assert (d = 53) by lia.
    replace (d - 1) with 52 in Hlo by lia. exact Hlo.
Qed.

Lemma scaled_order (m1 m2 : positive) (e1 e2 K : Z) :
  canonical_mantissa prec emax m1 e1 = true ->
  canonical_mantissa prec emax m2 e2 = true ->
  0 <= e1 + K -> e1 < e2 ->
  Z.pos m1 * 2 ^ (e1 + K) < Z.pos m2 * 2 ^ (e2 + K).
Proof.
  intros H1 H2 HK Hlt.
  destruct (canonical_mantissa_bounds m1 e1 H1) as [B1 [_ E1]].
  destruct (canonical_mantissa_bounds m2 e2 H2) as [_ [B2 _]].
  specialize (B2 ltac:(lia)).
  pose proof (Z.pow_pos_nonneg 2 (e1 + K) ltac:(lia) HK) as P1.
  assert (P2 : 2 * 2 ^ (e1 + K) <= 2 ^ (e2 + K)).
  { rewrite <- Z.pow_succ_r by lia. apply Z.pow_le_mono_r; lia. }
  change (2 ^ 53) with (2 * 2 ^ 52) in B1. nia.
Qed.

Lemma pos_val_order (m1 m2 : positive) (e1 e2 : Z) :
  canonical_mantissa prec emax m1 e1 = true ->
  canonical_mantissa prec emax m2 e2 = true ->
  ((pos_val m1 e1 < pos_val m2 e2)%Q <->
   e1 < e2 \/ (e1 = e2 /\ (m1 < m2)%positive)) /\
  ((pos_val m1 e1 == pos_val m2 e2)%Q <-> e1 = e2 /\ m1 = m2).
Proof.
  intros H1 H2.
  set (K := Z.max 0 (- Z.min e1 e2)).
  assert (HK : 0 <= K) by lia.
  assert (HK1 : 0 <= e1 + K) by lia.
  assert (HK2 : 0 <= e2 + K) by lia.
  pose proof (pos_val_scaled m1 e1 K HK HK1) as S1.
  pose proof (pos_val_scaled m2 e2 K HK HK2) as S2.
  assert (HP : (0 < inject_Z (2 ^ K))%Q).
  { unfold Qlt, inject_Z. cbn [Qnum Qden].
    pose proof (Z.pow_pos_nonneg 2 K ltac:(lia) HK). lia. }
  assert (Hlt : (pos_val m1 e1 < pos_val m2 e2)%Q <->
                Z.pos m1 * 2 ^ (e1 + K) < Z.pos m2 * 2 ^ (e2 + K)).
  { rewrite <- (Qmult_lt_r _ _ _ HP), S1, S2.
    unfold Qlt, inject_Z. cbn [Qnum Qden]. lia. }
  assert (Heq : (pos_val m1 e1 == pos_val m2 e2)%Q <->
                Z.pos m1 * 2 ^ (e1 + K) = Z.pos m2 * 2 ^ (e2 + K)).
  { split.
    - intros E. rewrite E in S1. rewrite S1 in S2.
      unfold Qeq, inject_Z in S2. cbn [Qnum Qden] in S2. lia.
    - intros E. apply (Qmult_inj_r _ _ (inject_Z (2 ^ K))); [lra|].
      rewrite S1, S2, E. reflexivity. }
  rewrite Hlt, Heq.
  pose proof (Z.pow_pos_nonneg 2 (e1 + K) ltac:(lia) HK1) as P1.
  destruct (Z.lt_trichotomy e1 e2) as [L | [E | L]].
  - pose proof (scaled_order m1 m2 e1 e2 K H1 H2 HK1 L) as HN.
    split; split.
    + intros _. now left.
    + intros _. exact HN.
    + lia.
    + intros [? _]. lia.
  - subst e2. split; split.
    + intros H. right. split; [reflexivity|].
      change (Z.pos m1 < Z.pos m2). nia.
    + intros [? | [_ H]]; [lia|]. change (Z.pos m1 < Z.pos m2) in H. nia.
    + intros H. split; [reflexivity|].
      assert (Z.pos m1 = Z.pos m2) by nia. congruence.
    + intros [_ ->]. reflexivity.
  - pose proof (scaled_order m2 m1 e2 e1 K H2 H1 HK2 L) as HN.
    split; split.
    + lia.
    + intros [? | [? _]]; lia.
    + lia.
    + intros [? _]. lia.
Qed.

(** On valid floats, the order of the ranks is the order of the exact
    values. *)
Ltac order_case :=
  repeat match goal with
  | H : _ /\ _ |- _ => destruct H
  | H : _ \/ _ |- _ => destruct H
  | H : (_, _, _) = (_, _, _) |- _ => inversion H; clear H; subst
  end;
  first
    [ lia | lra | discriminate | reflexivity
    | split; [lia | lra]
    | left; lia
    | right; split; [lia | lra]
    | right; split; [lia | left; lia] ].

Lemma finite_order_agrees (sx sy : bool) (mx my : positive) (ex ey : Z)
    (a b : Z * Z * Z) (ka kb : Z * Q) :
  canonical_mantissa prec emax mx ex = true ->
  canonical_mantissa prec emax my ey = true ->
  SFrank (S754_finite sx mx ex) = Some a ->
  SFrank (S754_finite sy my ey) = Some b ->
  SF_key (S754_finite sx mx ex) = Some ka ->
  SF_key (S754_finite sy my ey) = Some kb ->
  (a = b <-> fst ka = fst kb /\ (snd ka == snd kb)%Q) /\
  (ltlex a b <->
   fst ka < fst kb \/ (fst ka = fst kb /\ (snd ka < snd kb)%Q)).
Proof.
  intros Cx Cy Ra Rb Ka Kb.
  pose proof (pos_val_positive mx ex) as Px.
  pose proof (pos_val_positive my ey) as Py.
  destruct (pos_val_order mx my ex ey Cx Cy) as [Lxy Exy].
  destruct (pos_val_order my mx ey ex Cy Cx) as [Lyx _].
  destruct sx, sy; cbn [SFrank SF_key] in *;
    inversion Ra; inversion Rb; inversion Ka; inversion Kb; subst;
    clear Ra Rb Ka Kb; cbn [fst snd ltlex];
    set (px := pos_val mx ex) in *; set (py := pos_val my ey) in *.
  - split; split.
    + intros H. inversion H.
      assert (ex = ey) by lia. assert (mx = my) by congruence. subst.
      split; [reflexivity | subst px py; reflexivity].
    + intros [_ H]. assert (E : (px == py)%Q) by lra.
      apply Exy in E. destruct E; subst. reflexivity.
    + intros H. right. split; [reflexivity|].
      assert (L : (py < px)%Q).
      { apply Lyx. destruct H as [H | [_ [H | [H1 H2]]]]; [lia | left; lia |].
        right. split; [lia|]. change (Z.neg mx < Z.neg my) in H2.
        unfold Pos.lt. rewrite Pos.compare_lt_iff. lia. }
      lra.
    + intros [H | [_ H]]; [lia|]. right. split; [reflexivity|].
      assert (L : (py < px)%Q) by lra. apply Lyx in L.
      destruct L as [L | [L1 L2]]; [left; lia|].
      right. split; [lia|]. change (Z.neg mx < Z.neg my).
      unfold Pos.lt in L2. rewrite Pos.compare_lt_iff in L2. lia.
  - split; split; intros H; order_case.
  - split; split; intros H; order_case.
  - split; split.
    + intros H. inversion H. subst.
      split; [reflexivity | subst px py; reflexivity].
    + intros [_ H]. apply Exy in H. destruct H; subst. reflexivity.
    + intros H. right. split; [reflexivity|]. apply Lxy.
      destruct H as [H | [_ [H | [H1 H2]]]]; [lia | now left |].
      right. split; [lia | exact H2].
    + intros [H | [_ H]]; [lia|]. right. split; [reflexivity|].
      apply Lxy in H. destruct H as [H | [H1 H2]]; [now left|].
      right. split; [lia | exact H2].
Qed.

Lemma SF_order_agrees (x y : spec_float) (a b : Z * Z * Z) (ka kb : Z * Q) :
  valid_binary x = true -> valid_binary y = true ->
  SFrank x = Some a -> SFrank y = Some b ->
  SF_key x = Some ka -> SF_key y = Some kb ->
  (a = b <-> fst ka = fst kb /\ (snd ka == snd kb)%Q) /\
  (ltlex a b <->
   fst ka < fst kb \/ (fst ka = fst kb /\ (snd ka < snd kb)%Q)).
Proof.
  intros Vx Vy Ra Rb Ka Kb.
  destruct x as [sx|sx| |sx mx ex], y as [sy|sy| |sy my ey];
    try discriminate;
    try (cbn [valid_binary] in Vx, Vy; unfold bounded in Vx, Vy;
         apply andb_prop in Vx; apply andb_prop in Vy;
         destruct Vx as [Vx _], Vy as [Vy _];
         exact (finite_order_agrees _ _ _ _ _ _ _ _ _ _ Vx Vy Ra Rb Ka Kb));
    try pose proof (pos_val_positive mx ex);
    try pose proof (pos_val_positive my ey);
    repeat match goal with s : bool |- _ => destruct s end;
    cbn [SFrank SF_key] in *;
    inversion Ra; inversion Rb; inversion Ka; inversion Kb; subst;
    clear Ra Rb Ka Kb; cbn [fst snd ltlex];
    change (inject_Z 0) with 0%Q in *;
    split; split; intros Hyp; order_case.
Qed.

(** On two floats and on two ints, the comparisons of numbers are those
    of the float and of the int instance. *)
Lemma number_float_comparisons (x y : float) :
  number_eq (Float x) (Float y) = PrimFloat.eqb x y /\
  number_lt (Float x) (Float y) = PrimFloat.ltb x y.
Proof.
  pose proof (FloatAxioms.Prim2SF_valid x) as Vx.
  pose proof (FloatAxioms.Prim2SF_valid y) as Vy.
  assert (Hdef : forall s, SFrank s = None <-> SF_key s = None).
  { intros [s|s| |s m e]; cbn; split; try discriminate; try reflexivity;
      destruct s; discriminate. }
  assert (Heq : number_eq (Float x) (Float y) = true <->
                PrimFloat.eqb x y = true).
  { rewrite number_eq_spec, float_eqb_rank. cbn [number_key]. split.
    - intros [ka [kb [Ka [Kb H]]]].
      destruct (SFrank (Prim2SF x)) as [a|] eqn:Ra;
        [|apply Hdef in Ra; congruence].
      destruct (SFrank (Prim2SF y)) as [b|] eqn:Rb;
        [|apply Hdef in Rb; congruence].
      destruct (SF_order_agrees _ _ a b ka kb Vx Vy Ra Rb Ka Kb) as [E _].
      apply E in H. subst b. now exists a.
    - intros [a [Ra Rb]].
      destruct (SF_key (Prim2SF x)) as [ka|] eqn:Ka;
        [|apply Hdef in Ka; congruence].
      destruct (SF_key (Prim2SF y)) as [kb|] eqn:Kb;
        [|apply Hdef in Kb; congruence].
      destruct (SF_order_agrees _ _ a a ka kb Vx Vy Ra Rb Ka Kb) as [E _].
      exists ka, kb. split; [reflexivity | split; [reflexivity|]].
      now apply E. }
  assert (Hlt : number_lt (Float x) (Float y) = true <->
                PrimFloat.ltb x y = true).
  { rewrite number_lt_spec, float_ltb_rank. cbn [number_key]. split.
    - intros [ka [kb [Ka [Kb H]]]].
      destruct (SFrank (Prim2SF x)) as [a|] eqn:Ra;
        [|apply Hdef in Ra; congruence].
      destruct (SFrank (Prim2SF y)) as [b|] eqn:Rb;
        [|apply Hdef in Rb; congruence].
      destruct (SF_order_agrees _ _ a b ka kb Vx Vy Ra Rb Ka Kb) as [_ L].
      exists a, b. split; [reflexivity | split; [reflexivity|]].
      now apply L.
    - intros [a [b [Ra [Rb H]]]].
      destruct (SF_key (Prim2SF x)) as [ka|] eqn:Ka;
        [|apply Hdef in Ka; congruence].
      destruct (SF_key (Prim2SF y)) as [kb|] eqn:Kb;
        [|apply Hdef in Kb; congruence].
      destruct (SF_order_agrees _ _ a b ka kb Vx Vy Ra Rb Ka Kb) as [_ L].
      exists ka, kb. split; [reflexivity | split; [reflexivity|]].
      now apply L. }
  split.
  - destruct (number_eq (Float x) (Float y)), (PrimFloat.eqb x y);
      try reflexivity; [symmetry|]; now apply Heq.
  - destruct (number_lt (Float x) (Float y)), (PrimFloat.ltb x y);
      try reflexivity; [symmetry|]; now apply Hlt.
Qed.

Lemma number_int_comparisons (a b : Z) :
  number_eq (Int a) (Int b) = (a =? b) /\
  number_lt (Int a) (Int b) = (a <? b).
Proof.
  unfold number_eq, number_lt, key_eq, key_lt. cbn [number_key fst snd].
  rewrite Z.eqb_refl, Z.ltb_irrefl. cbn [andb orb].
  unfold Qeq_bool, Qle_bool, inject_Z. cbn [Qnum Qden].
  rewrite !Z.mul_1_r. split; [reflexivity|].
  destruct (b <=? a) eqn:L, (a <? b) eqn:L'; try reflexivity; exfalso;
    rewrite ?Z.leb_le, ?Z.leb_gt, ?Z.ltb_lt, ?Z.ltb_ge in *; lia.
Qed.

End NumberOrder.

#[export] Instance PyCmpLaws_number (int_quotient : Z -> Z -> Z) :
  PyCmpLaws number (num := PyNum_number int_quotient).
Proof. split; [exact PyOrdLaws_number | reflexivity]. Qed.

(** ** Sorted sequences *)

Section SortedFacts.

Context {T : Type} {ord : PyOrd T} {laws : PyOrdLaws T}.

Lemma not_lt_trans (a b c : T) :
  py_eq a a = true -> py_eq b b = true ->
  py_lt b a = false -> py_lt c b = false -> py_lt c a = false.
Proof.
  intros Ca Cb Hab Hbc. destruct (py_lt c a) eqn:Hca; [exfalso | reflexivity].
  destruct (py_total a b Ca Cb) as [Lab | [Eab | Lba]].
  - pose proof (py_lt_trans _ _ _ Hca Lab). congruence.
  - pose proof (py_lt_eq _ _ _ Hca Eab). congruence.
  - congruence.
Qed.

Lemma is_sorted_cons (x : T) (tl : list T) :
  is_sorted (x :: tl) = true ->
  py_eq x x = true /\
  match tl with [] => True | y :: _ => py_lt y x = false end /\
  is_sorted tl = true.
Proof.
  cbn [is_sorted]. intros E.
  apply andb_prop in E. destruct E as [E Htl].
  apply andb_prop in E. destruct E as [Hx Hy].
  repeat split; try assumption.
  destruct tl as [|y tl']; [exact I | now apply negb_true_iff].
Qed.

Lemma sorted_comparable (s : list T) :
  is_sorted s = true ->
  forall (i : nat) x, nth_error s i = Some x -> py_eq x x = true.
Proof.
  induction s as [|a s IH]; intros Hs i x Hi; [destruct i; discriminate|].
  destruct (is_sorted_cons _ _ Hs) as [Ha [_ Htl]].
  destruct i as [|i]; cbn [nth_error] in Hi.
  - now inversion Hi; subst.
  - exact (IH Htl i x Hi).
Qed.

Lemma sorted_head (tl : list T) :
  forall x, is_sorted (x :: tl) = true ->
  forall j y, nth_error tl j = Some y -> py_lt y x = false.
Proof.
  induction tl as [|z tl IH]; intros x Hs j y Hj.
  - destruct j; discriminate.
  - destruct (is_sorted_cons _ _ Hs) as [Cx [Hzx Htl]].
    destruct (is_sorted_cons _ _ Htl) as [Cz _].
    destruct j as [|j]; cbn [nth_error] in Hj.
    + now inversion Hj; subst.
    + apply (not_lt_trans x z y Cx Cz Hzx).
      apply (IH z Htl j y Hj).
Qed.

Lemma sorted_nth (s : list T) :
  is_sorted s = true ->
  forall (i j : nat) x y, (i <= j)%nat ->
  nth_error s i = Some x -> nth_error s j = Some y -> py_lt y x = false.
Proof.
  induction s as [|a s IH]; intros Hs i j x y Hij Hi Hj.
  - destruct i; discriminate.
  - destruct (is_sorted_cons _ _ Hs) as [Ca [_ Htl]].
    destruct i as [|i], j as [|j]; cbn [nth_error] in Hi, Hj.
    + inversion Hi; inversion Hj; subst. now apply py_eq_not_lt.
    + inversion Hi; subst. exact (sorted_head s x Hs j y Hj).
    + lia.
    + apply (IH Htl i j x y); [lia | assumption..].
Qed.

Lemma sorted_get (s : list T) (i j : Z) (x y : T) :
  is_sorted s = true ->
  0 <= i -> i <= j -> j < len s ->
  py_getitem s i = Some x -> py_getitem s j = Some y ->
  py_lt y x = false /\ py_eq x x = true /\ py_eq y y = true.
Proof.
  intros Hs H0 Hij Hj Gi Gj.
  rewrite getitem_nonneg in Gi, Gj by lia.
  repeat split.
  - apply (sorted_nth s Hs (Z.to_nat i) (Z.to_nat j)); [lia | assumption..].
  - exact (sorted_comparable s Hs _ _ Gi).
  - exact (sorted_comparable s Hs _ _ Gj).
Qed.

Lemma matches_inv (s : list T) (v : T) (k : Z) :
  matches s v k = true ->
  exists y, py_getitem s k = Some y /\ py_eq y v = true.
Proof.
  unfold matches. destruct (py_getitem s k) as [y|]; [|discriminate].
  intros E. now exists y.
Qed.

Lemma matches_intro (s : list T) (v x : T) (k : Z) :
  py_getitem s k = Some x -> py_eq x v = true -> matches s v k = true.
Proof. intros G E. unfold matches. now rewrite G. Qed.

(** An element below [v] rules out [v] at every earlier index. *)
Lemma below_excludes (s : list T) (v x : T) (m k : Z) :
  is_sorted s = true ->
  0 <= k -> k <= m -> m < len s ->
  py_getitem s m = Some x -> py_lt x v = true ->
  matches s v k = false.
Proof.
  intros Hs H0 Hkm Hm Gm Hlt.
  destruct (matches s v k) eqn:Mk; [exfalso | reflexivity].
  destruct (matches_inv _ _ _ Mk) as [y [Gk Ey]].
  destruct (sorted_get s k m y x Hs H0 Hkm Hm Gk Gm) as [Hxy _].
  pose proof (py_lt_eq _ _ _ Hlt (py_eq_sym _ _ Ey)). congruence.
Qed.

(** An element neither equal to [v] nor below it rules out [v] at every
    later index. *)
Lemma above_excludes (s : list T) (v x : T) (m k : Z) :
  is_sorted s = true ->
  0 <= m -> m <= k -> k < len s ->
  py_getitem s m = Some x ->
  py_eq x v = false -> py_lt x v = false ->
  matches s v k = false.
Proof.
  intros Hs H0 Hmk Hk Gm Hne Hnlt.
  destruct (matches s v k) eqn:Mk; [exfalso | reflexivity].
  destruct (matches_inv _ _ _ Mk) as [y [Gk Ey]].
  destruct (sorted_get s m k x y Hs H0 Hmk Hk Gm Gk) as [Hyx [Cx Cy]].
  destruct (py_total x y Cx Cy) as [L | [E | L]].
  - pose proof (py_lt_eq _ _ _ L Ey). congruence.
  - pose proof (py_eq_trans _ _ _ E Ey). congruence.
  - congruence.
Qed.

(** The bisection loop on a sorted sequence, within the sequence. *)
Lemma bounds_loop_sorted (s : list T) (v : T) :
  is_sorted s = true ->
  forall (fuel : nat) (left right : Z),
  0 <= left -> right < len s ->
  (Z.to_nat (right - left + 1) <= fuel)%nat ->
  search_post s v left right (res (bounds_loop fuel s v left right)).
Proof.
  intros Hs fuel.
  assert (Hempty : forall left right, right < left ->
            search_post s v left right (res (ret (-1)))).
  { intros left right Hgt. exists (-1). split; [reflexivity|].
    right. split; [reflexivity|]. intros k Hk. lia. }
  induction fuel as [|fuel IH]; intros left right Hl Hr Hf;
    cbn [bounds_loop]; destruct (left <=? right) eqn:Hle;
    try (apply Hempty; apply Z.leb_gt in Hle; exact Hle).
  { apply Z.leb_le in Hle. lia. }
  apply Z.leb_le in Hle.
  pose proof (mid_within left right Hle) as Hmid.
  set (mid := left + Z.shiftr (right - left) 1) in *.
  destruct (getitem_defined s mid ltac:(lia)) as [x Gx].
  rewrite (bind_index_some _ _ _ _ Gx). cbn [res].
  destruct (py_eq x v) eqn:Heq.
  - exists mid. split; [reflexivity|]. left.
    split; [lia | exact (matches_intro s v x mid Gx Heq)].
  - destruct (py_lt x v) eqn:Hlt.
    + destruct (IH (mid + 1) right ltac:(lia) Hr ltac:(lia))
        as [i [Ei [[Hi Gi] | [Hi Hno]]]];
        exists i; (split; [exact Ei|]).
      * left. split; [lia | assumption].
      * right. split; [assumption|]. intros k Hk.
        destruct (Z_le_gt_dec k mid).
        -- apply (below_excludes s v x mid k); try assumption; lia.
        -- apply Hno; lia.
    + destruct (IH left (mid - 1) Hl ltac:(lia) ltac:(lia))
        as [i [Ei [[Hi Gi] | [Hi Hno]]]];
        exists i; (split; [exact Ei|]).
      * left. split; [lia | assumption].
      * right. split; [assumption|]. intros k Hk.
        destruct (Z_lt_ge_dec k mid).
        -- apply Hno; lia.
        -- apply (above_excludes s v x mid k); try assumption; lia.
Qed.

End SortedFacts.

(** ** Membership *)

Lemma contains_matches {T} {ord : PyOrd T} (s : list T) (v : T) :
  contains s v = true <->
  exists i, 0 <= i < len s /\ matches s v i = true.
Proof.
  unfold contains. rewrite existsb_exists. split.
  - intros [x [Hin Ex]]. apply In_nth_error in Hin. destruct Hin as [n Hn].
    assert (Hlt : (n < List.length s)%nat)
      by (apply nth_error_Some; congruence).
    exists (Z.of_nat n). unfold len. split; [lia|].
    unfold matches. rewrite getitem_nonneg by (unfold len; lia).
    now rewrite Nat2Z.id, Hn.
  - intros [i [Hi Mi]]. unfold matches in Mi.
    rewrite getitem_nonneg in Mi by assumption.
    destruct (nth_error s (Z.to_nat i)) as [x|] eqn:G; [|discriminate].
    exists x. split; [exact (nth_error_In _ _ G) | exact Mi].
Qed.

(** A search over a range that covers every match decides membership. *)
Lemma search_post_whole {T} {ord : PyOrd T} (s : list T) (v : T)
    (lo hi : Z) (r : result Z) :
  0 <= lo -> hi < len s ->
  ((exists i, 0 <= i < len s /\ matches s v i = true) ->
   exists k, lo <= k <= hi /\ matches s v k = true) ->
  search_post s v lo hi r ->
  decides s v r.
Proof.
  intros Hlo Hhi Hcover [i [Er [[Hi Gi] | [Hi Hno]]]]; split.
  - intros _. exists i. repeat split; try assumption; lia.
  - intros Hnot. exfalso.
    assert (Hc : contains s v = true)
      by (apply contains_matches; exists i; split; [lia | assumption]).
    congruence.
  - intros Hin. exfalso. apply contains_matches in Hin.
    destruct (Hcover Hin) as [k [Hk Gk]]. rewrite (Hno k Hk) in Gk.
    discriminate.
  - intros _. now subst i.
Qed.

(** ** The two bisection loops are one *)

Lemma loops_agree {T} {ord : PyOrd T} (s : list T) (v : T) (fuel : nat) :
  forall left right,
  binary_search_loop fuel s v left right = bounds_loop fuel s v left right.
Proof.
  induction fuel as [|fuel IH]; intros left right;
    cbn [binary_search_loop bounds_loop]; [reflexivity|].
  destruct (left <=? right); [|reflexivity].
  unfold bind. destruct (res (index s _)) as [x|e|]; [|reflexivity..].
  destruct (py_eq x v); [reflexivity|].
  destruct (py_lt x v); now rewrite IH.
Qed.

(** An empty interval ends the loop before any subscript. *)
Lemma bounds_loop_empty {T} {ord : PyOrd T} (s : list T) (v : T)
    (fuel : nat) (left right : Z) :
  right < left -> bounds_loop fuel s v left right = mkRun [] (Ret (-1)).
Proof.
  intros Hgt. apply Z.leb_gt in Hgt.
  destruct fuel; cbn [bounds_loop]; rewrite Hgt; reflexivity.
Qed.

(** ** Searches of a sorted sequence decide membership *)

Section Decides.

Context {T : Type} {ord : PyOrd T} {laws : PyOrdLaws T}.

Lemma binary_search_decides (s : list T) (v : T) :
  is_sorted s = true -> decides s v (res (binary_search s v)).
Proof.
  intros Hs. unfold binary_search. rewrite loops_agree.
  apply (search_post_whole s v 0 (len s - 1)); try lia.
  - intros [i [Hi Gi]]. exists i. split; [lia | assumption].
  - apply bounds_loop_sorted; [assumption | lia | lia | lia].
Qed.

(** The doubling loop stops at a bound whose half is past every index
    that cannot hold [v], and that is either outside the sequence or
    holds an element not below [v]. *)
Lemma exponential_probe_sorted (s : list T) (v : T) :
  is_sorted s = true ->
  forall (fuel : nat) (bound : Z),
  1 <= bound ->
  (Z.to_nat (len s - bound) <= fuel)%nat ->
  (forall k, 0 <= k < Z.shiftr bound 1 -> matches s v k = false) ->
  exists b,
    res (exponential_probe fuel s v (len s) bound) = Ret b /\
    1 <= b /\
    (forall k, 0 <= k < Z.shiftr b 1 -> matches s v k = false) /\
    (len s <= b \/
     (b < len s /\
      exists x, py_getitem s b = Some x /\ py_lt x v = false)).
Proof.
  intros Hs fuel.
  induction fuel as [|fuel IH]; intros bound Hb Hf Hinv;
    cbn [exponential_probe]; destruct (bound <? len s) eqn:Hlt;
    try (apply Z.ltb_ge in Hlt; exists bound;
         repeat split; try assumption; now left).
  { apply Z.ltb_lt in Hlt. lia. }
  apply Z.ltb_lt in Hlt.
  destruct (getitem_defined s bound ltac:(lia)) as [x Gx].
  rewrite (bind_index_some _ _ _ _ Gx). cbn [res].
  destruct (py_lt x v) eqn:Hxv.
  - rewrite shiftl_1. apply IH; [lia | lia |].
    intros k Hk. rewrite shiftr_1 in Hk.
    apply (below_excludes s v x bound k); try assumption;
      Z.to_euclidean_division_equations; lia.
  - exists bound. repeat split; try assumption.
    right. split; [assumption|]. now exists x.
Qed.

Lemma exponential_search_nonempty (s : list T) (v : T) :
  s <> [] ->
  exponential_search s v
  = (bound <- exponential_probe (Z.to_nat (len s)) s v (len s) 1 ;;
     binary_search_with_bounds s v (Z.shiftr bound 1)
       (Some (Z.min bound (len s - 1)))).
Proof. destruct s; [congruence | reflexivity]. Qed.

Lemma exponential_search_decides (s : list T) (v : T) :
  is_sorted s = true -> decides s v (res (exponential_search s v)).
Proof.
  intros Hs. destruct s as [|a s'] eqn:Es.
  { split; [discriminate | reflexivity]. }
  rewrite <- Es in *. unfold decides.
  rewrite exponential_search_nonempty by congruence.
  assert (Hlen : 1 <= len s) by (subst s; unfold len; simpl; lia).
  destruct (exponential_probe_sorted s v Hs (Z.to_nat (len s)) 1)
    as [b [Eb [Hb1 [Hinv Hstop]]]]; [lia | lia | |].
  { intros k Hk. rewrite shiftr_1 in Hk.
    Z.to_euclidean_division_equations. lia. }
  rewrite (bind_ret _ _ _ Eb). cbn [res].
  unfold binary_search_with_bounds.
  assert (Hhalf : 0 <= Z.shiftr b 1 <= b)
    by (rewrite shiftr_1; Z.to_euclidean_division_equations; lia).
  apply (search_post_whole s v (Z.shiftr b 1) (Z.min b (len s - 1)));
    try lia.
  - intros [i [Hi Mi]].
    assert (Hlow : Z.shiftr b 1 <= i).
    { destruct (Z_lt_ge_dec i (Z.shiftr b 1)) as [Hc|Hc]; [|lia].
      rewrite (Hinv i) in Mi by lia. discriminate. }
    destruct Hstop as [Hout | [Hin [x [Gx Hxv]]]].
    + exists i. split; [lia | assumption].
    + destruct (Z_le_gt_dec i b) as [Hib | Hib].
      * exists i. split; [lia | assumption].
      * exists b. split; [lia|].
        destruct (py_eq x v) eqn:Exv;
          [exact (matches_intro s v x b Gx Exv)|].
        rewrite (above_excludes s v x b i Hs ltac:(lia) ltac:(lia)
                   ltac:(lia) Gx Exv Hxv) in Mi.
        discriminate.
  - apply bounds_loop_sorted; [assumption | lia | lia | lia].
Qed.

End Decides.

Lemma decides_agree {T} {ord : PyOrd T} (s : list T) (v : T)
    (r1 r2 : result Z) :
  decides s v r1 -> decides s v r2 -> agree_on_status s v r1 r2.
Proof.
  intros [F1 N1] [F2 N2]. destruct (contains s v) eqn:Hc.
  - right. split; [exact Hc|].
    destruct (F1 eq_refl) as [i [E1 [Hi Gi]]].
    destruct (F2 eq_refl) as [j [E2 [Hj Gj]]].
    exists i, j. repeat split; try assumption; lia.
  - left. split; [exact Hc|]. split; [now apply N1 | now apply N2].
Qed.

Lemma decides_iff {T} {ord : PyOrd T} (s : list T) (v : T)
    (r : result Z) :
  decides s v r ->
  (contains s v = true <->
   exists i, r = Ret i /\ 0 <= i < len s /\ matches s v i = true) /\
  (contains s v = false <-> r = Ret (-1)).
Proof.
  intros [Hfound Hnot]. split; split.
  - exact Hfound.
  - intros [i [_ [Hi Gi]]]. apply contains_matches. now exists i.
  - exact Hnot.
  - intros Er. destruct (contains s v) eqn:Hc; [exfalso | reflexivity].
    destruct (Hfound eq_refl) as [i [Ei [Hi _]]].
    rewrite Er in Ei. inversion Ei. lia.
Qed.

(** * Claims on [binary_search] and [binary_search_with_bounds] *)

(** C1. On a sorted sequence, [binary_search] returns an index whose
    element is [==] to the target when some element is, and [-1] when
    none is. *)
Theorem binary_search_correct {T} {ord : PyOrd T} {laws : PyOrdLaws T}
    (s : list T) (v : T) :
  is_sorted s = true ->
  (contains s v = true ->
   exists i, res (binary_search s v) = Ret i /\
             0 <= i < len s /\ matches s v i = true) /\
  (contains s v = false -> res (binary_search s v) = Ret (-1)).
Proof.
  intros Hs. unfold binary_search. rewrite loops_agree.
  apply (search_post_whole s v 0 (len s - 1)); try lia.
  - intros [i [Hi Mi]]. exists i. split; [lia | exact Mi].
  - apply bounds_loop_sorted; [exact Hs | lia | lia | lia].
Qed.

Lemma binary_search_correct_witness :
  (exists i, res (binary_search [0; 5; 7; 10; 15] 10) = Ret i /\
             0 <= i < len [0; 5; 7; 10; 15] /\
             matches [0; 5; 7; 10; 15] 10 i = true) /\
  res (binary_search ["apple"; "banana"; "cherry"; "date"]%string
         "fig"%string) = Ret (-1) /\
  (exists i, res (binary_search [1.0; 2.5; 3.7; 4.2; 5.9]%float
                    5.9%float) = Ret i /\
             0 <= i < len [1.0; 2.5; 3.7; 4.2; 5.9]%float /\
             matches [1.0; 2.5; 3.7; 4.2; 5.9]%float 5.9%float i = true).
Proof.
  split; [|split].
  - apply (binary_search_correct [0; 5; 7; 10; 15] 10); reflexivity.
  - apply (binary_search_correct
             ["apple"; "banana"; "cherry"; "date"]%string "fig"%string);
      reflexivity.
  - apply (binary_search_correct [1.0; 2.5; 3.7; 4.2; 5.9]%float 5.9%float);
      reflexivity.
Defined.

(** C5. [binary_search] and [binary_search_with_bounds] called with its
    default bounds are the same computation on every sequence, sorted or
    not, empty or not: same subscripts in the same order, same result. *)
Theorem binary_search_is_default_bounds {T} {ord : PyOrd T}
    (s : list T) (v : T) :
  binary_search s v = binary_search_with_bounds s v 0 None.
Proof.
  unfold binary_search, binary_search_with_bounds. apply loops_agree.
Qed.

(** C7. With explicit bounds [low > high], [binary_search_with_bounds]
    returns [-1]: nothing is raised and no element is read. *)
Theorem malformed_bounds_not_found {T} {ord : PyOrd T}
    (s : list T) (v : T) (low high : Z) :
  low > high ->
  binary_search_with_bounds s v low (Some high) = mkRun [] (Ret (-1)).
Proof.
  intros Hgt. unfold binary_search_with_bounds.
  apply bounds_loop_empty. lia.
Qed.

Lemma malformed_bounds_not_found_witness :
  4 > 2 /\
  binary_search_with_bounds [1; 2; 3; 4; 5; 6] 3 4 (Some 2)
  = mkRun [] (Ret (-1)).
Proof.
  split; [lia|].
  apply (malformed_bounds_not_found [1; 2; 3; 4; 5; 6] 3 4 2). lia.
Defined.

(** ** A bounded search is a search of the slice *)

Lemma slice_len {T} (s : list T) (low high : Z) :
  0 <= low -> low <= high -> high <= len s - 1 ->
  len (py_slice s low (high + 1)) = high - low + 1.
Proof.
  intros H0 Hlh Hh. unfold len, py_slice in *.
  rewrite length_firstn, length_skipn. lia.
Qed.

Lemma slice_getitem {T} (s : list T) (low high i : Z) :
  0 <= low -> low <= high -> high <= len s - 1 ->
  0 <= i <= high - low ->
  py_getitem (py_slice s low (high + 1)) i = py_getitem s (i + low).
Proof.
  intros H0 Hlh Hh Hi.
  rewrite getitem_nonneg by (rewrite slice_len; lia).
  rewrite getitem_nonneg by lia.
  unfold py_slice. rewrite nth_error_firstn.
  replace (Z.to_nat i <? Z.to_nat (high + 1 - low))%nat with true
    by (symmetry; apply Nat.ltb_lt; lia).
  rewrite nth_error_skipn. f_equal. lia.
Qed.

Lemma bounds_loop_slice {T} {ord : PyOrd T} (s : list T) (v : T)
    (low high : Z) :
  0 <= low -> low <= high -> high <= len s - 1 ->
  forall (fuel : nat) (left right : Z),
  0 <= left -> right <= high - low ->
  bounds_loop fuel s v (left + low) (right + low)
  = offset_run low
      (bounds_loop fuel (py_slice s low (high + 1)) v left right).
Proof.
  intros H0 Hlh Hh fuel.
  induction fuel as [|fuel IH]; intros left right Hl Hr;
    cbn [bounds_loop];
    replace (left + low <=? right + low) with (left <=? right)
      by (destruct (left <=? right) eqn:E;
          [apply Z.leb_le in E | apply Z.leb_gt in E];
          symmetry; [apply Z.leb_le | apply Z.leb_gt]; lia);
    destruct (left <=? right) eqn:Hle; try reflexivity.
  apply Z.leb_le in Hle.
  pose proof (mid_within left right Hle) as Hmid.
  replace (right + low - (left + low)) with (right - left) by lia.
  replace (left + low + Z.shiftr (right - left) 1)
    with (left + Z.shiftr (right - left) 1 + low) by lia.
  set (mid := left + Z.shiftr (right - left) 1) in *.
  pose proof (slice_getitem s low high mid H0 Hlh Hh ltac:(lia)) as Gs.
  destruct (getitem_defined s (mid + low) ltac:(lia)) as [x Gx].
  rewrite Gx in Gs.
  rewrite (bind_index_some _ _ _ _ Gx), (bind_index_some _ _ _ _ Gs).
  destruct (py_eq x v).
  - unfold offset_run, offset_index. cbn.
    replace (mid =? -1) with false by (symmetry; apply Z.eqb_neq; lia).
    reflexivity.
  - destruct (py_lt x v).
    + replace (mid + low + 1) with (mid + 1 + low) by lia.
      rewrite IH by lia. reflexivity.
    + replace (mid + low - 1) with (mid - 1 + low) by lia.
      rewrite IH by lia. reflexivity.
Qed.

(** C2. For valid inclusive bounds [0 <= low <= high <= len - 1],
    [binary_search_with_bounds] on [low..high] is [binary_search] on the
    slice [s[low..high]] with every index shifted by [low]: the probes
    are the shifted probes, a found index is the shifted index, and [-1]
    stays [-1].  Sortedness is not needed. *)
Theorem bounds_is_search_of_slice {T} {ord : PyOrd T}
    (s : list T) (v : T) (low high : Z) :
  0 <= low -> low <= high -> high <= len s - 1 ->
  binary_search_with_bounds s v low (Some high)
  = offset_run low (binary_search (py_slice s low (high + 1)) v).
Proof.
  intros H0 Hlh Hh.
  unfold binary_search. rewrite loops_agree.
  unfold binary_search_with_bounds.
  rewrite (slice_len s low high H0 Hlh Hh).
  replace (high - low + 1 - 1 - 0 + 1) with (high - low + 1) by lia.
  replace (high - low + 1 - 1) with (high - low) by lia.
  rewrite <- (bounds_loop_slice s v low high H0 Hlh Hh) by lia.
  f_equal; lia.
Qed.

Lemma bounds_is_search_of_slice_witness :
  (0 <= 3 /\ 3 <= 5 /\ 5 <= len [1; 2; 3; 4; 5; 6] - 1) /\
  binary_search_with_bounds [1; 2; 3; 4; 5; 6] 5 3 (Some 5)
  = offset_run 3 (binary_search (py_slice [1; 2; 3; 4; 5; 6] 3 (5 + 1)) 5).
Proof.
  split.
  - unfold len; simpl; lia.
  - apply (bounds_is_search_of_slice [1; 2; 3; 4; 5; 6] 5 3 5);
      unfold len; simpl; lia.
Defined.

(** * Claims on [exponential_search] *)

(** C3. On a sorted sequence, [exponential_search] and [binary_search]
    agree on found / not found: both return [-1] (the target is absent),
    or both return indices, possibly different, holding the target. *)
Theorem exponential_agrees_with_binary {T} {ord : PyOrd T}
    {laws : PyOrdLaws T} (s : list T) (v : T) :
  is_sorted s = true ->
  agree_on_status s v (res (exponential_search s v))
                      (res (binary_search s v)).
Proof.
  intros Hs. apply decides_agree.
  - now apply exponential_search_decides.
  - now apply binary_search_decides.
Qed.

Lemma exponential_agrees_with_binary_witness :
  is_sorted [1; 2; 2; 2; 3; 4; 5] = true /\
  agree_on_status [1; 2; 2; 2; 3; 4; 5] 2
    (res (exponential_search [1; 2; 2; 2; 3; 4; 5] 2))
    (res (binary_search [1; 2; 2; 2; 3; 4; 5] 2)).
Proof.
  split; [reflexivity|].
  apply (exponential_agrees_with_binary [1; 2; 2; 2; 3; 4; 5] 2).
  reflexivity.
Defined.

(** ** Interpolation search of a sorted sequence *)

Section SortedInterpolation.

Context {T : Type} {num : PyNum T} {cmp : PyCmpLaws T}.

Lemma bind_truediv_ok {B} (x y : T) (q : Z) (f : Z -> run B) :
  py_is_zero y = false -> py_int_quotient x y = inr q ->
  bind (int_truediv x y) f
  = mkRun (Divide false :: trace (f q)) (res (f q)).
Proof.
  intros Hz Hq. unfold int_truediv. rewrite Hz, Hq. reflexivity.
Qed.

Lemma bind_truediv_raise {B} (x y : T) (e : exn) (f : Z -> run B) :
  py_is_zero y = false -> py_int_quotient x y = inl e ->
  bind (int_truediv x y) f = mkRun [Divide false] (Raise e).
Proof.
  intros Hz Hq. unfold int_truediv. rewrite Hz, Hq. reflexivity.
Qed.

Lemma bind_truediv_zero {B} (x y : T) (f : Z -> run B) :
  py_is_zero y = true ->
  bind (int_truediv x y) f = mkRun [Divide true] (Raise ZeroDivisionError).
Proof. intros Hz. unfold int_truediv. rewrite Hz. reflexivity. Qed.

(** The three ways the loop rules the target out of [left..right]. *)
Lemma low_end_excludes (s : list T) (v lo : T) (left k : Z) :
  is_sorted s = true ->
  0 <= left -> left <= k -> k < len s ->
  py_getitem s left = Some lo -> py_le lo v = false ->
  matches s v k = false.
Proof.
  intros Hs H0 Hlk Hk Gl Hle.
  destruct (matches s v k) eqn:Mk; [exfalso | reflexivity].
  destruct (matches_inv _ _ _ Mk) as [y [Gk Ey]].
  destruct (sorted_get s left k lo y Hs H0 Hlk Hk Gl Gk) as [Hy [Cl Cy]].
  rewrite cmp_le_spec in Hle. apply orb_false_elim in Hle.
  destruct Hle as [Hlt Hne].
  destruct (py_total lo y Cl Cy) as [L | [E | L]].
  - pose proof (py_lt_eq _ _ _ L Ey). congruence.
  - pose proof (py_eq_trans _ _ _ E Ey). congruence.
  - congruence.
Qed.

Lemma high_end_excludes (s : list T) (v hi : T) (right k : Z) :
  is_sorted s = true ->
  0 <= k -> k <= right -> right < len s ->
  py_getitem s right = Some hi -> py_le v hi = false ->
  matches s v k = false.
Proof.
  intros Hs H0 Hkr Hr Gr Hle.
  destruct (matches s v k) eqn:Mk; [exfalso | reflexivity].
  destruct (matches_inv _ _ _ Mk) as [y [Gk Ey]].
  destruct (sorted_get s k right y hi Hs H0 Hkr Hr Gk Gr) as [Hy [Cy Ch]].
  rewrite cmp_le_spec in Hle. apply orb_false_elim in Hle.
  destruct Hle as [Hlt Hne].
  destruct (py_total y hi Cy Ch) as [L | [E | L]].
  - pose proof (py_eq_lt _ _ _ (py_eq_sym _ _ Ey) L). congruence.
  - pose proof (py_eq_trans _ _ _ (py_eq_sym _ _ Ey) E). congruence.
  - congruence.
Qed.

Lemma equal_ends_exclude (s : list T) (v lo hi : T) (left right k : Z) :
  is_sorted s = true ->
  0 <= left -> left <= k -> k <= right -> right < len s ->
  py_getitem s left = Some lo -> py_getitem s right = Some hi ->
  py_eq lo hi = true -> py_eq lo v = false ->
  matches s v k = false.
Proof.
  intros Hs H0 Hlk Hkr Hr Gl Gr Heq Hne.
  destruct (matches s v k) eqn:Mk; [exfalso | reflexivity].
  destruct (matches_inv _ _ _ Mk) as [y [Gk Ey]].
  destruct (sorted_get s left k lo y Hs H0 Hlk ltac:(lia) Gl Gk)
    as [Hy [Cl Cy]].
  destruct (sorted_get s k right y hi Hs ltac:(lia) Hkr Hr Gk Gr)
    as [Hh _].
  destruct (py_total lo y Cl Cy) as [L | [E | L]].
  - pose proof (py_eq_lt _ _ _ (py_eq_sym _ _ Heq) L). congruence.
  - pose proof (py_eq_trans _ _ _ E Ey). congruence.
  - congruence.
Qed.

Lemma interpolation_loop_ordered (s : list T) (v : T) :
  is_sorted s = true ->
  forall (fuel : nat) (left right : Z),
  0 <= left -> right < len s ->
  (Z.to_nat (right - left + 1) <= fuel)%nat ->
  zero_division (res (interpolation_loop fuel s v left right)) \/
  int_raised (res (interpolation_loop fuel s v left right)) \/
  search_post s v left right (res (interpolation_loop fuel s v left right)).
Proof.
  intros Hs fuel.
  assert (Hnone : forall left right,
            (forall k, left <= k <= right -> matches s v k = false) ->
            zero_division (res (@ret Z (-1))) \/
            int_raised (res (@ret Z (-1))) \/
            search_post s v left right (res (ret (-1)))).
  { intros left right Hno. right. right.
    exists (-1). split; [reflexivity|].
    right. split; [reflexivity | exact Hno]. }
  induction fuel as [|fuel IH]; intros left right Hl Hr Hf;
    cbn [interpolation_loop];
    (destruct (left <=? right) eqn:Hle;
     [apply Z.leb_le in Hle
     |apply Z.leb_gt in Hle; apply Hnone; intros; lia]);
    destruct (getitem_defined s left ltac:(lia)) as [lo Glo];
    destruct (getitem_defined s right ltac:(lia)) as [hi Ghi];
    rewrite (bind_index_some _ _ _ _ Glo); cbn [res];
    (destruct (py_le lo v) eqn:Hlo;
     [|apply Hnone; intros k Hk;
       apply (low_end_excludes s v lo left k); try assumption; lia]);
    rewrite (bind_index_some _ _ _ _ Ghi); cbn [res];
    (destruct (py_le v hi) eqn:Hhi;
     [|apply Hnone; intros k Hk;
       apply (high_end_excludes s v hi right k); try assumption; lia]).
  { lia. }
  rewrite (bind_index_some _ _ _ _ Glo); cbn [res].
  rewrite (bind_index_some _ _ _ _ Ghi); cbn [res].
  destruct (py_eq lo hi) eqn:Elh.
  - rewrite (bind_index_some _ _ _ _ Glo); cbn [res].
    destruct (py_eq lo v) eqn:Elv.
    + right. right. exists left. split; [reflexivity|]. left.
      split; [lia | exact (matches_intro s v lo left Glo Elv)].
    + apply Hnone. intros k Hk.
      apply (equal_ends_exclude s v lo hi left right k);
        try assumption; lia.
  - rewrite (bind_index_some _ _ _ _ Glo); cbn [res].
    rewrite (bind_index_some _ _ _ _ Ghi); cbn [res].
    rewrite (bind_index_some _ _ _ _ Glo); cbn [res].
    destruct (py_is_zero (py_sub hi lo)) eqn:Hz.
    { rewrite (bind_truediv_zero _ _ _ Hz). cbn [res].
      left. exists lo, hi. repeat split; assumption. }
    destruct (py_int_quotient
                (py_mul_index (py_sub v lo) (right - left)) (py_sub hi lo))
      as [e|q] eqn:Eq.
    { rewrite (bind_truediv_raise _ _ e _ Hz Eq). cbn [res].
      right. left.
      now exists e, (py_mul_index (py_sub v lo) (right - left)),
                 (py_sub hi lo). }
    rewrite (bind_truediv_ok _ _ q _ Hz Eq). cbn [res].
    destruct (clamp_narrows left right (left + q) Hle) as [Hpos _].
    cbv zeta in Hpos.
    set (pos := Z.max left (Z.min (left + q) right)) in *.
    destruct (getitem_defined s pos ltac:(lia)) as [p Gp].
    rewrite (bind_index_some _ _ _ _ Gp); cbn [res].
    destruct (py_eq p v) eqn:Epv.
    + right. right. exists pos. split; [reflexivity|]. left.
      split; [lia | exact (matches_intro s v p pos Gp Epv)].
    + rewrite (bind_index_some _ _ _ _ Gp); cbn [res].
      destruct (py_lt p v) eqn:Lpv.
      * destruct (IH (pos + 1) right ltac:(lia) Hr ltac:(lia))
          as [Hzero | [Hraise | [i [Ei [[Hi Gi] | [Hi Hno]]]]]];
          [left; exact Hzero | right; left; exact Hraise
          |right; right; exists i; (split; [exact Ei|])..].
        -- left. split; [lia | assumption].
        -- right. split; [assumption|]. intros k Hk.
           destruct (Z_le_gt_dec k pos).
           ++ apply (below_excludes s v p pos k); try assumption; lia.
           ++ apply Hno; lia.
      * destruct (IH left (pos - 1) Hl ltac:(lia) ltac:(lia))
          as [Hzero | [Hraise | [i [Ei [[Hi Gi] | [Hi Hno]]]]]];
          [left; exact Hzero | right; left; exact Hraise
          |right; right; exists i; (split; [exact Ei|])..].
        -- left. split; [lia | assumption].
        -- right. split; [assumption|]. intros k Hk.
           destruct (Z_lt_ge_dec k pos).
           ++ apply Hno; lia.
           ++ apply (above_excludes s v p pos k); try assumption; lia.
Qed.

Lemma interpolation_search_ordered (s : list T) (v : T) :
  is_sorted s = true ->
  zero_division (res (interpolation_search s v)) \/
  int_raised (res (interpolation_search s v)) \/
  decides s v (res (interpolation_search s v)).
Proof.
  intros Hs. unfold interpolation_search.
  destruct (interpolation_loop_ordered s v Hs
              (Z.to_nat (len s - 1 - 0 + 1)) 0 (len s - 1)
              ltac:(lia) ltac:(lia) ltac:(lia))
    as [Hzero | [Hraise | Hpost]];
    [left; exact Hzero | right; left; exact Hraise | right; right].
  apply (search_post_whole s v 0 (len s - 1)); try lia; [|exact Hpost].
  intros [i [Hi Gi]]. exists i. split; [lia | assumption].
Qed.

End SortedInterpolation.

Section SingleTypeInterpolation.

Context {T : Type} {num : PyNum T} {laws : PyNumLaws T}.

(** Where the arithmetic agrees with the comparisons the division never
    has a zero divisor. *)
Lemma no_zero_division (r : result Z) : ~ zero_division r.
Proof.
  intros [lo [hi [Hne [Hz _]]]].
  rewrite (py_sub_nonzero lo hi Hne) in Hz. discriminate Hz.
Qed.

Lemma interpolation_loop_sorted (s : list T) (v : T) :
  is_sorted s = true ->
  forall (fuel : nat) (left right : Z),
  0 <= left -> right < len s ->
  (Z.to_nat (right - left + 1) <= fuel)%nat ->
  int_raised (res (interpolation_loop fuel s v left right)) \/
  search_post s v left right (res (interpolation_loop fuel s v left right)).
Proof.
  intros Hs fuel left right Hl Hr Hf.
  destruct (interpolation_loop_ordered s v Hs fuel left right Hl Hr Hf)
    as [Hzero | H]; [|exact H].
  destruct (no_zero_division _ Hzero).
Qed.

Lemma interpolation_search_decides (s : list T) (v : T) :
  is_sorted s = true ->
  int_raised (res (interpolation_search s v)) \/
  decides s v (res (interpolation_search s v)).
Proof.
  intros Hs.
  destruct (interpolation_search_ordered s v Hs) as [Hzero | H];
    [|exact H].
  destruct (no_zero_division _ Hzero).
Qed.

End SingleTypeInterpolation.

(** * Claims on [interpolation_search] *)




(** * A sequence with repeated values *)

(** C6. On [[1,2,2,2,3,4,5]] with target [2], [binary_search],
    [binary_search_with_bounds] with default bounds and
    [exponential_search] each return one of the indices 1, 2, 3, all of
    which hold [2].  The index is the one the probing lands on:
    the two bisections return 3, not the first occurrence, and
    [exponential_search] returns 1, not the last; on [[2,2,2]] the
    bisection returns the middle one. *)
Theorem repeated_values_some_match :
  let s := [1; 2; 2; 2; 3; 4; 5] in
  (exists i j k,
     res (binary_search s 2) = Ret i /\
     res (binary_search_with_bounds s 2 0 None) = Ret j /\
     res (exponential_search s 2) = Ret k /\
     1 <= i <= 3 /\ 1 <= j <= 3 /\ 1 <= k <= 3 /\
     py_getitem s i = Some 2 /\
     py_getitem s j = Some 2 /\
     py_getitem s k = Some 2 /\
     i <> 1 /\ j <> 1 /\ k <> 3) /\
  map (py_getitem s) [0; 1; 2; 3; 4; 5; 6]
  = [Some 1; Some 2; Some 2; Some 2; Some 3; Some 4; Some 5] /\
  res (binary_search [2; 2; 2] 2) = Ret 1.
Proof.
  cbv zeta. split; [|split].
  - exists 3, 3, 1. repeat split; try reflexivity; lia.
  - reflexivity.
  - reflexivity.
Qed.

(** * Safety and termination *)

(** ** Rules for traced computations *)

Lemma sat_lift {A} (P : event -> Prop) (Q : result A -> Prop)
    (r : result A) :
  Q r -> run_sat P Q (lift r).
Proof. intros HQ. split; [constructor | exact HQ]. Qed.

Lemma sat_index {T B} (P : event -> Prop) (Q : result B -> Prop)
    (s : list T) (i : Z) (f : T -> run B) :
  P (Access i) ->
  (py_getitem s i = None -> Q (Raise IndexError)) ->
  (forall x, py_getitem s i = Some x -> run_sat P Q (f x)) ->
  run_sat P Q (bind (index s i) f).
Proof.
  intros HP Hnone Hsome. destruct (py_getitem s i) as [x|] eqn:G.
  - rewrite (bind_index_some _ _ _ _ G).
    destruct (Hsome x eq_refl) as [Ht Hr].
    split; [constructor; assumption | exact Hr].
  - rewrite (bind_index_none _ _ _ G).
    split; [repeat constructor; assumption | now apply Hnone].
Qed.

Lemma sat_truediv {T B} {num : PyNum T} (P : event -> Prop)
    (Q : result B -> Prop) (x y : T) (f : Z -> run B) :
  P (Divide (py_is_zero y)) ->
  (py_is_zero y = true -> Q (Raise ZeroDivisionError)) ->
  (py_is_zero y = false ->
   match py_int_quotient x y with
   | inr q => run_sat P Q (f q)
   | inl e => Q (Raise e)
   end) ->
  run_sat P Q (bind (int_truediv x y) f).
Proof.
  intros HP Hzero Hquot. unfold int_truediv.
  destruct (py_is_zero y) eqn:Ez.
  - split; [repeat constructor; assumption | now apply Hzero].
  - specialize (Hquot eq_refl).
    destruct (py_int_quotient x y) as [e|q]; cbn.
    + split; [repeat constructor; assumption | exact Hquot].
    + destruct Hquot as [Ht Hr]. split; [constructor; assumption | exact Hr].
Qed.

Lemma sat_bind {A B} (P : event -> Prop) (Q : result B -> Prop)
    (m : run A) (f : A -> run B) (a : A) :
  Forall P (trace m) -> res m = Ret a ->
  run_sat P Q (f a) -> run_sat P Q (bind m f).
Proof.
  intros Hm Em [Ht Hr]. rewrite (bind_ret _ _ _ Em).
  split; [apply Forall_app; now split | exact Hr].
Qed.

(** ** More fuel changes nothing once the loop has finished *)

Lemma approx_refl {A} (r : run A) : approx r r.
Proof. now right. Qed.

Lemma approx_timeout {A} (r : run A) : approx timeout r.
Proof. now left. Qed.

Lemma approx_trans {A} (r1 r2 r3 : run A) :
  approx r1 r2 -> approx r2 r3 -> approx r1 r3.
Proof.
  intros [T1 | E1] H23; [now left|]. subst r2. exact H23.
Qed.

Lemma bind_mono {A B} (m : run A) (f g : A -> run B) :
  (forall a, res m = Ret a -> approx (f a) (g a)) ->
  approx (bind m f) (bind m g).
Proof.
  intros Hfg. unfold bind. destruct (res m) as [a|e|] eqn:Em.
  - destruct (Hfg a eq_refl) as [Ht | He].
    + left. exact Ht.
    + right. now rewrite He.
  - now right.
  - now right.
Qed.

Lemma more_fuel {A} (F : nat -> run A) :
  (forall n, approx (F n) (F (S n))) ->
  forall n extra, res (F n) <> Timeout -> F (n + extra)%nat = F n.
Proof.
  intros Hstep n extra Hn.
  assert (Hall : approx (F n) (F (n + extra)%nat)).
  { induction extra as [|k IH].
    - rewrite Nat.add_0_r. apply approx_refl.
    - rewrite Nat.add_succ_r. exact (approx_trans _ _ _ IH (Hstep _)). }
  destruct Hall as [Ht | He]; [contradiction | now symmetry].
Qed.

(** ** The bisection loop *)

Section BisectionRuns.

Context {T : Type} {ord : PyOrd T}.

Lemma bounds_loop_sat (P : event -> Prop) (Q : result Z -> Prop)
    (s : list T) (v : T) :
  Q (Ret (-1)) -> Q (Raise IndexError) ->
  forall (fuel : nat) (left right : Z),
  (forall i, left <= i <= right -> P (Access i) /\ Q (Ret i)) ->
  (Z.to_nat (right - left + 1) <= fuel)%nat ->
  run_sat P Q (bounds_loop fuel s v left right).
Proof.
  intros Hnf Herr fuel.
  induction fuel as [|fuel IH]; intros left right Hin Hf;
    cbn [bounds_loop]; destruct (left <=? right) eqn:Hle;
    try (now apply sat_lift).
  { apply Z.leb_le in Hle. lia. }
  apply Z.leb_le in Hle.
  destruct (bisect_narrows left right Hle) as [Hmid [Hr Hl]].
  cbv zeta in Hmid, Hr, Hl.
  set (mid := left + Z.shiftr (right - left) 1) in *.
  apply sat_index; [now apply Hin | intros _; exact Herr |].
  intros x _. destruct (py_eq x v).
  - apply sat_lift. now apply Hin.
  - destruct (py_lt x v); apply IH; try lia; intros i Hi; apply Hin; lia.
Qed.

Lemma bounds_loop_mono_step (s : list T) (v : T) (n m : nat) :
  (forall left right,
   approx (bounds_loop n s v left right) (bounds_loop m s v left right)) ->
  forall left right,
  approx (bounds_loop (S n) s v left right)
         (bounds_loop (S m) s v left right).
Proof.
  intros Hnm left right. cbn [bounds_loop].
  destruct (left <=? right); [|apply approx_refl].
  apply bind_mono. intros x _.
  destruct (py_eq x v); [apply approx_refl|].
  destruct (py_lt x v); apply Hnm.
Qed.

Lemma bounds_loop_mono (s : list T) (v : T) (n : nat) :
  forall left right,
  approx (bounds_loop n s v left right) (bounds_loop (S n) s v left right).
Proof.
  induction n as [|n IH].
  - intros left right. cbn [bounds_loop]. destruct (left <=? right);
      [apply approx_timeout | apply approx_refl].
  - now apply bounds_loop_mono_step.
Qed.

Lemma bounds_loop_more_fuel (s : list T) (v : T) (left right : Z)
    (n extra : nat) :
  res (bounds_loop n s v left right) <> Timeout ->
  bounds_loop (n + extra) s v left right = bounds_loop n s v left right.
Proof.
  apply (more_fuel (fun k => bounds_loop k s v left right)).
  intros k. apply bounds_loop_mono.
Qed.

(** ** The doubling loop *)

Lemma exponential_probe_sat (s : list T) (v : T) :
  forall (fuel : nat) (bound : Z),
  1 <= bound ->
  (Z.to_nat (len s - bound) <= fuel)%nat ->
  run_sat (in_bounds s) (fun r => exists b, r = Ret b /\ 1 <= b)
    (exponential_probe fuel s v (len s) bound).
Proof.
  induction fuel as [|fuel IH]; intros bound Hb Hf;
    cbn [exponential_probe]; destruct (bound <? len s) eqn:Hlt;
    try (apply sat_lift; now exists bound).
  { apply Z.ltb_lt in Hlt. lia. }
  apply Z.ltb_lt in Hlt.
  apply sat_index; [simpl; lia | |].
  - intros G. destruct (getitem_defined s bound ltac:(lia)) as [x Gx].
    congruence.
  - intros x _. destruct (py_lt x v).
    + destruct (doubling_grows bound Hb) as [Hg _]. apply IH; lia.
    + apply sat_lift. now exists bound.
Qed.

Lemma exponential_probe_mono_step (s : list T) (v : T) (length : Z)
    (n m : nat) :
  (forall bound,
   approx (exponential_probe n s v length bound)
          (exponential_probe m s v length bound)) ->
  forall bound,
  approx (exponential_probe (S n) s v length bound)
         (exponential_probe (S m) s v length bound).
Proof.
  intros Hnm bound. cbn [exponential_probe].
  destruct (bound <? length); [|apply approx_refl].
  apply bind_mono. intros x _.
  destruct (py_lt x v); [apply Hnm | apply approx_refl].
Qed.

Lemma exponential_probe_mono (s : list T) (v : T) (length : Z) (n : nat) :
  forall bound,
  approx (exponential_probe n s v length bound)
         (exponential_probe (S n) s v length bound).
Proof.
  induction n as [|n IH].
  - intros bound. cbn [exponential_probe]. destruct (bound <? length);
      [apply approx_timeout | apply approx_refl].
  - now apply exponential_probe_mono_step.
Qed.

Lemma exponential_probe_more_fuel (s : list T) (v : T) (length bound : Z)
    (n extra : nat) :
  res (exponential_probe n s v length bound) <> Timeout ->
  exponential_probe (n + extra) s v length bound
  = exponential_probe n s v length bound.
Proof.
  apply (more_fuel (fun k => exponential_probe k s v length bound)).
  intros k. apply exponential_probe_mono.
Qed.

End BisectionRuns.

(** ** The interpolation loop *)

Section InterpolationRuns.

Context {T : Type} {num : PyNum T}.

Lemma interpolation_loop_sat (P : event -> Prop) (Q : result Z -> Prop)
    (s : list T) (v : T) :
  Q (Ret (-1)) -> (forall e, Q (Raise e)) -> (forall z, P (Divide z)) ->
  forall (fuel : nat) (left right : Z),
  (forall i, left <= i <= right -> P (Access i) /\ Q (Ret i)) ->
  (Z.to_nat (right - left + 1) <= fuel)%nat ->
  run_sat P Q (interpolation_loop fuel s v left right).
Proof.
  intros Hnf Herr Hdiv fuel.
  induction fuel as [|fuel IH]; intros left right Hin Hf;
    cbn [interpolation_loop];
    (destruct (left <=? right) eqn:Hle;
     [apply Z.leb_le in Hle | now apply sat_lift]);
    (apply sat_index; [apply Hin; lia | intros _; apply Herr |]);
    intros lo _; (destruct (py_le lo v); [|now apply sat_lift]);
    (apply sat_index; [apply Hin; lia | intros _; apply Herr |]);
    intros hi _; (destruct (py_le v hi); [|now apply sat_lift]).
  { lia. }
  apply sat_index; [apply Hin; lia | intros _; apply Herr |]. intros lo1 _.
  apply sat_index; [apply Hin; lia | intros _; apply Herr |]. intros hi1 _.
  destruct (py_eq lo1 hi1).
  - apply sat_index; [apply Hin; lia | intros _; apply Herr |].
    intros lo2 _. destruct (py_eq lo2 v); apply sat_lift;
      [apply Hin; lia | exact Hnf].
  - apply sat_index; [apply Hin; lia | intros _; apply Herr |].
    intros lo3 _.
    apply sat_index; [apply Hin; lia | intros _; apply Herr |].
    intros hi4 _.
    apply sat_index; [apply Hin; lia | intros _; apply Herr |].
    intros lo4 _.
    apply sat_truediv; [apply Hdiv | intros _; apply Herr |].
    intros _.
    destruct (py_int_quotient _ _) as [e|q]; [apply Herr|].
    destruct (clamp_narrows left right (left + q) Hle) as [Hpos [Hr Hl]].
    cbv zeta in Hpos, Hr, Hl.
    set (pos := Z.max left (Z.min (left + q) right)) in *.
    apply sat_index; [apply Hin; lia | intros _; apply Herr |].
    intros p1 _. destruct (py_eq p1 v).
    + apply sat_lift. apply Hin. lia.
    + apply sat_index; [apply Hin; lia | intros _; apply Herr |].
      intros p2 _.
      destruct (py_lt p2 v); apply IH; try lia; intros i Hi; apply Hin; lia.
Qed.

Lemma interpolation_loop_mono_step (s : list T) (v : T) (n m : nat) :
  (forall left right,
   approx (interpolation_loop n s v left right)
          (interpolation_loop m s v left right)) ->
  forall left right,
  approx (interpolation_loop (S n) s v left right)
         (interpolation_loop (S m) s v left right).
Proof.
  intros Hnm left right. cbn [interpolation_loop].
  destruct (left <=? right); [|apply approx_refl].
  apply bind_mono. intros lo _.
  destruct (py_le lo v); [|apply approx_refl].
  apply bind_mono. intros hi _.
  destruct (py_le v hi); [|apply approx_refl].
  apply bind_mono. intros lo1 _. apply bind_mono. intros hi1 _.
  destruct (py_eq lo1 hi1); [apply approx_refl|].
  apply bind_mono. intros lo3 _. apply bind_mono. intros hi4 _.
  apply bind_mono. intros lo4 _. apply bind_mono. intros q _.
  apply bind_mono. intros p1 _.
  destruct (py_eq p1 v); [apply approx_refl|].
  apply bind_mono. intros p2 _.
  destruct (py_lt p2 v); apply Hnm.
Qed.

Lemma interpolation_loop_mono (s : list T) (v : T) (n : nat) :
  forall left right,
  approx (interpolation_loop n s v left right)
         (interpolation_loop (S n) s v left right).
Proof.
  induction n as [|n IH].
  - intros left right. cbn [interpolation_loop].
    destruct (left <=? right); [|apply approx_refl].
    apply bind_mono. intros lo _.
    destruct (py_le lo v); [|apply approx_refl].
    apply bind_mono. intros hi _.
    destruct (py_le v hi); [apply approx_timeout | apply approx_refl].
  - now apply interpolation_loop_mono_step.
Qed.

Lemma interpolation_loop_more_fuel (s : list T) (v : T) (left right : Z)
    (n extra : nat) :
  res (interpolation_loop n s v left right) <> Timeout ->
  interpolation_loop (n + extra) s v left right
  = interpolation_loop n s v left right.
Proof.
  apply (more_fuel (fun k => interpolation_loop k s v left right)).
  intros k. apply interpolation_loop_mono.
Qed.

(** Equal ends, inside the loop: five subscripts, no division. *)
Lemma equal_ends_return (s : list T) (v : T) (fuel : nat)
    (left right : Z) (lo hi : T) :
  left <= right ->
  py_getitem s left = Some lo -> py_getitem s right = Some hi ->
  py_le lo v = true -> py_le v hi = true ->
  py_eq lo hi = true ->
  interpolation_loop (S fuel) s v left right
  = mkRun [Access left; Access right; Access left; Access right;
           Access left]
          (Ret (if py_eq lo v then left else -1)).
Proof.
  intros Hle Glo Ghi Hlo Hhi Heq. cbn [interpolation_loop].
  replace (left <=? right) with true by (symmetry; now apply Z.leb_le).
  rewrite (bind_index_some _ _ _ _ Glo), Hlo.
  rewrite (bind_index_some _ _ _ _ Ghi), Hhi.
  rewrite (bind_index_some _ _ _ _ Glo).
  rewrite (bind_index_some _ _ _ _ Ghi), Heq.
  rewrite (bind_index_some _ _ _ _ Glo).
  destruct (py_eq lo v); reflexivity.
Qed.

End InterpolationRuns.

(** ** Divisors of the interpolation *)

Section GuardedDivision.

Context {T : Type} {num : PyNum T} {laws : PyNumLaws T}.

Lemma interpolation_divisors (s : list T) (v : T) :
  forall (fuel : nat) (left right : Z),
  run_sat divisor_nonzero (fun r => r <> Raise ZeroDivisionError)
    (interpolation_loop fuel s v left right).
Proof.
  assert (Hacc : forall i, divisor_nonzero (Access i)) by (intros; exact I).
  assert (Hret : forall i : Z, Ret i <> Raise ZeroDivisionError)
    by (intros; discriminate).
  induction fuel as [|fuel IH]; intros left right;
    cbn [interpolation_loop];
    (destruct (left <=? right); [|apply sat_lift; apply Hret]);
    (apply sat_index; [apply Hacc | intros _; discriminate |]);
    intros lo Glo; (destruct (py_le lo v); [|apply sat_lift; apply Hret]);
    (apply sat_index; [apply Hacc | intros _; discriminate |]);
    intros hi Ghi; (destruct (py_le v hi); [|apply sat_lift; apply Hret]).
  { apply sat_lift. discriminate. }
  apply sat_index; [apply Hacc | intros _; discriminate |]. intros lo1 Glo1.
  apply sat_index; [apply Hacc | intros _; discriminate |]. intros hi1 Ghi1.
  destruct (py_eq lo1 hi1) eqn:Elh.
  - apply sat_index; [apply Hacc | intros _; discriminate |].
    intros lo2 _. destruct (py_eq lo2 v); apply sat_lift; apply Hret.
  - apply sat_index; [apply Hacc | intros _; discriminate |].
    intros lo3 _.
    apply sat_index; [apply Hacc | intros _; discriminate |].
    intros hi4 Ghi4.
    apply sat_index; [apply Hacc | intros _; discriminate |].
    intros lo4 Glo4.
    assert (Ez : py_is_zero (py_sub hi4 lo4) = false).
    { apply py_sub_nonzero.
      assert (hi4 = hi1) by congruence. assert (lo4 = lo1) by congruence.
      now subst. }
    apply sat_truediv.
    + rewrite Ez. reflexivity.
    + rewrite Ez. discriminate.
    + intros _.
      destruct (py_int_quotient _ _) as [e|q] eqn:Eq.
      * intros F. inversion F; subst e.
        exact (py_int_quotient_exn _ _ Eq).
      * apply sat_index; [apply Hacc | intros _; discriminate |].
        intros p1 _. destruct (py_eq p1 v); [apply sat_lift; apply Hret|].
        apply sat_index; [apply Hacc | intros _; discriminate |].
        intros p2 _. destruct (py_lt p2 v); apply IH.
Qed.

(** Equal ends: the shared value decides, in or out of the loop. *)
Lemma equal_ends (s : list T) (v : T) (fuel : nat) (left right : Z)
    (lo hi : T) :
  left <= right ->
  py_getitem s left = Some lo -> py_getitem s right = Some hi ->
  py_eq lo hi = true ->
  run_sat no_division
    (fun r => r = Ret (if py_eq lo v then left else -1))
    (interpolation_loop (S fuel) s v left right).
Proof.
  intros Hle Gl Gr Heq.
  assert (Hout : py_le lo v = false \/ py_le v hi = false ->
                 py_eq lo v = false).
  { intros Hno. destruct (py_eq lo v) eqn:Ev; [|reflexivity].
    assert (H1 : py_le lo v = true)
      by (rewrite py_le_spec, Ev; apply orb_true_r).
    assert (H2 : py_le v hi = true).
    { rewrite py_le_spec.
      rewrite (py_eq_trans _ _ _ (py_eq_sym _ _ Ev) Heq).
      apply orb_true_r. }
    destruct Hno; congruence. }
  destruct (py_le lo v) eqn:Hlo; [destruct (py_le v hi) eqn:Hhi|].
  - rewrite (equal_ends_return s v fuel left right lo hi
               Hle Gl Gr Hlo Hhi Heq).
    split; [repeat constructor | reflexivity].
  - cbn [interpolation_loop].
    replace (left <=? right) with true by (symmetry; now apply Z.leb_le).
    rewrite (bind_index_some _ _ _ _ Gl), Hlo.
    rewrite (bind_index_some _ _ _ _ Gr), Hhi.
    rewrite Hout by (now right).
    split; [repeat constructor | reflexivity].
  - cbn [interpolation_loop].
    replace (left <=? right) with true by (symmetry; now apply Z.leb_le).
    rewrite (bind_index_some _ _ _ _ Gl), Hlo.
    rewrite Hout by (now left).
    split; [repeat constructor | reflexivity].
Qed.

End GuardedDivision.

(** ** Whole searches: subscripts in range, fuel not exhausted *)

Section SearchRuns.

Context {T : Type} {ord : PyOrd T}.

Lemma bounds_loop_finishes (s : list T) (v : T) (left right : Z) :
  res (bounds_loop (Z.to_nat (right - left + 1)) s v left right)
  <> Timeout.
Proof.
  apply (bounds_loop_sat (fun _ => True) finished s v);
    unfold finished; try discriminate; try lia.
  intros i _. split; [exact I | discriminate].
Qed.

Lemma bounds_loop_in_bounds (s : list T) (v : T) (fuel : nat)
    (left right : Z) :
  0 <= left -> right < len s ->
  (Z.to_nat (right - left + 1) <= fuel)%nat ->
  run_sat (in_bounds s) finished (bounds_loop fuel s v left right).
Proof.
  intros Hl Hr Hf.
  apply (bounds_loop_sat (in_bounds s) finished s v);
    unfold finished; try discriminate; try assumption.
  intros i Hi. split; [simpl; lia | discriminate].
Qed.

Lemma binary_search_run (s : list T) (v : T) :
  run_sat (in_bounds s) finished (binary_search s v).
Proof.
  unfold binary_search. rewrite loops_agree.
  apply bounds_loop_in_bounds; lia.
Qed.

Lemma exponential_search_run (s : list T) (v : T) :
  run_sat (in_bounds s) finished (exponential_search s v).
Proof.
  destruct s as [|a s'] eqn:Es.
  { split; [constructor | discriminate]. }
  rewrite <- Es. rewrite exponential_search_nonempty by congruence.
  assert (Hlen : 1 <= len s) by (subst s; unfold len; simpl; lia).
  destruct (exponential_probe_sat s v (Z.to_nat (len s)) 1
              ltac:(lia) ltac:(lia)) as [Ht [b [Eb Hb]]].
  apply (sat_bind _ _ _ _ b Ht Eb).
  assert (Hhalf : 0 <= Z.shiftr b 1)
    by (rewrite shiftr_1; Z.to_euclidean_division_equations; lia).
  unfold binary_search_with_bounds.
  apply bounds_loop_in_bounds; lia.
Qed.

End SearchRuns.

Lemma interpolation_search_run {T} {num : PyNum T} (s : list T) (v : T) :
  run_sat (in_bounds s) finished (interpolation_search s v).
Proof.
  unfold interpolation_search.
  apply (interpolation_loop_sat (in_bounds s) finished s v);
    unfold finished; try discriminate; try lia.
  - intros z. exact I.
  - intros i Hi. split; [simpl; lia | discriminate].
Qed.

(** * Claims on safety and termination *)

(** The guard of the division on a sequence of one number type,
    integers or floats, where elements that are not [==] have a nonzero
    difference.  Whenever the loop is at a non-empty interval whose end
    elements are equal, the call returns [left] if that shared value is
    the target and [-1] otherwise, and no division happens.  Every
    division that does happen, from any loop state, has a nonzero
    divisor, and [ZeroDivisionError] is never raised. *)
Theorem division_is_guarded {T : Type} {num : PyNum T}
    {laws : PyNumLaws T} (s : list T) (v : T) :
  (forall (fuel : nat) (left right : Z) (lo hi : T),
     left <= right ->
     py_getitem s left = Some lo -> py_getitem s right = Some hi ->
     py_eq lo hi = true ->
     run_sat no_division
       (fun r => r = Ret (if py_eq lo v then left else -1))
       (interpolation_loop (S fuel) s v left right)) /\
  (forall (fuel : nat) (left right : Z),
     run_sat divisor_nonzero (fun r => r <> Raise ZeroDivisionError)
       (interpolation_loop fuel s v left right)) /\
  run_sat divisor_nonzero (fun r => r <> Raise ZeroDivisionError)
    (interpolation_search s v).
Proof.
  split; [|split].
  - intros fuel left right lo hi. apply equal_ends.
  - apply interpolation_divisors.
  - unfold interpolation_search. apply interpolation_divisors.
Qed.

Lemma division_is_guarded_witness :
  run_sat no_division (fun r => r = Ret 0)
    (interpolation_loop (num := PyNum_int Z.quot) 3 [4; 4; 4] 4 0 2) /\
  run_sat no_division (fun r => r = Ret (-1))
    (interpolation_loop (num := PyNum_float) 2
       [2.5; 2.5]%float 7.0%float 0 1) /\
  run_sat divisor_nonzero (fun r => r <> Raise ZeroDivisionError)
    (interpolation_search_int Z.quot [9; 1; 9; 2; 7] 8) /\
  run_sat divisor_nonzero (fun r => r <> Raise ZeroDivisionError)
    (interpolation_search [1.0; 2.5; 3.7; 4.2; 5.9]%float 4.2%float).
Proof.
  split; [|split; [|split]].
  - apply (proj1 (@division_is_guarded Z (PyNum_int Z.quot)
                    (PyNumLaws_int Z.quot) [4; 4; 4] 4) 2%nat 0 2 4 4);
      [lia | reflexivity..].
  - apply (proj1 (@division_is_guarded float PyNum_float PyNumLaws_float
                    [2.5; 2.5]%float 7.0%float) 1%nat 0 1
             2.5%float 2.5%float);
      [lia | reflexivity..].
  - exact (proj2 (proj2 (@division_is_guarded Z (PyNum_int Z.quot)
                           (PyNumLaws_int Z.quot) [9; 1; 9; 2; 7] 8))).
  - exact (proj2 (proj2 (@division_is_guarded float PyNum_float
                           PyNumLaws_float
                           [1.0; 2.5; 3.7; 4.2; 5.9]%float 4.2%float))).
Defined.

(** C8.  The guard [sorted_collection[left] == sorted_collection[right]],
    commented "Prevent division by zero", does not prevent it on a list
    that holds an int beside a float.  On the sorted list
    [[9007199254740992.0, 9007199254740993]] with the target
    [9007199254740993], which [binary_search] finds at index 1, the two
    elements are not [==], since Python compares them exactly, and their
    difference is [0.0], since it converts the int to the nearest float:
    the division is reached with a zero divisor and the call ends in
    [ZeroDivisionError]. *)
Theorem division_guard_misses_mixed (int_quotient : Z -> Z -> Z) :
  let s := [Float 9007199254740992%float; Int 9007199254740993] in
  let v := Int 9007199254740993 in
  is_sorted s = true /\
  res (binary_search s v) = Ret 1 /\
  py_eq (Float 9007199254740992%float) (Int 9007199254740993) = false /\
  number_sub (Int 9007199254740993) (Float 9007199254740992%float)
  = Float 0%float /\
  interpolation_search (num := PyNum_number int_quotient) s v
  = mkRun [Access 0; Access 1; Access 0; Access 1;
           Access 0; Access 1; Access 0; Divide true]
          (Raise ZeroDivisionError) /\
  ~ run_sat divisor_nonzero (fun r => r <> Raise ZeroDivisionError)
      (interpolation_search (num := PyNum_number int_quotient) s v).
Proof.
  cbv zeta.
  assert (E : interpolation_search (num := PyNum_number int_quotient)
                [Float 9007199254740992%float; Int 9007199254740993]
                (Int 9007199254740993)
              = mkRun [Access 0; Access 1; Access 0; Access 1;
                       Access 0; Access 1; Access 0; Divide true]
                      (Raise ZeroDivisionError)) by reflexivity.
  split; [reflexivity|]. split; [reflexivity|]. split; [reflexivity|].
  split; [reflexivity|]. split; [exact E|].
  rewrite E. intros [_ H]. apply H. reflexivity.
Qed.

(** C9. On any sequence, sorted or not, and any target, every subscript
    evaluated by [binary_search], [exponential_search] and
    [interpolation_search] is an index of [0 .. len - 1]. *)
Theorem accesses_within_sequence :
  (forall (T : Type) (ord : PyOrd T) (s : list T) (v : T),
     Forall (in_bounds s) (trace (binary_search s v)) /\
     Forall (in_bounds s) (trace (exponential_search s v))) /\
  (forall (T : Type) (num : PyNum T) (s : list T) (v : T),
     Forall (in_bounds s) (trace (interpolation_search s v))).
Proof.
  split.
  - intros T ord s v. split.
    + exact (proj1 (binary_search_run s v)).
    + exact (proj1 (exponential_search_run s v)).
  - intros T num s v. exact (proj1 (interpolation_search_run s v)).
Qed.

(** C10. Every call of the four searches terminates on every input,
    sorted or not: the fuel each search supplies, the width of its
    interval (the length of the sequence for the doubling), is never
    exhausted, and any larger amount of fuel gives the same run.  The
    width is enough because the bisection probe and the clamped
    interpolated position lie in [left..right], so that either
    continuation narrows the interval, and because each doubling grows
    the bound. *)
Theorem searches_terminate :
  (forall left right : Z,
     left <= right ->
     let mid := left + Z.shiftr (right - left) 1 in
     left <= mid <= right /\
     right - (mid + 1) < right - left /\
     (mid - 1) - left < right - left) /\
  (forall left right estimate : Z,
     left <= right ->
     let pos := Z.max left (Z.min estimate right) in
     left <= pos <= right /\
     right - (pos + 1) < right - left /\
     (pos - 1) - left < right - left) /\
  (forall bound : Z,
     1 <= bound ->
     bound < Z.shiftl bound 1 /\ Z.shiftl bound 1 = 2 * bound) /\
  (forall (T : Type) (ord : PyOrd T) (s : list T) (v : T) (left : Z)
          (right : option Z) (extra : nat),
     res (binary_search s v) <> Timeout /\
     res (binary_search_with_bounds s v left right) <> Timeout /\
     res (exponential_search s v) <> Timeout /\
     binary_search_loop (Z.to_nat (len s - 1 - 0 + 1) + extra) s v
       0 (len s - 1) = binary_search s v /\
     (forall r : Z,
        bounds_loop (Z.to_nat (r - left + 1) + extra) s v left r
        = binary_search_with_bounds s v left (Some r)) /\
     exponential_probe (Z.to_nat (len s) + extra) s v (len s) 1
     = exponential_probe (Z.to_nat (len s)) s v (len s) 1) /\
  (forall (T : Type) (num : PyNum T) (s : list T) (v : T) (extra : nat),
     res (interpolation_search s v) <> Timeout /\
     interpolation_loop (Z.to_nat (len s - 1 - 0 + 1) + extra) s v
       0 (len s - 1) = interpolation_search s v).
Proof.
  split; [exact bisect_narrows|].
  split; [exact clamp_narrows|].
  split; [exact doubling_grows|].
  split.
  - intros T ord s v left right extra.
    split; [|split; [|split; [|split; [|split]]]].
    + exact (proj2 (binary_search_run s v)).
    + unfold binary_search_with_bounds. apply bounds_loop_finishes.
    + exact (proj2 (exponential_search_run s v)).
    + unfold binary_search. rewrite !loops_agree.
      apply bounds_loop_more_fuel. apply bounds_loop_finishes.
    + intros r. unfold binary_search_with_bounds.
      apply bounds_loop_more_fuel. apply bounds_loop_finishes.
    + apply exponential_probe_more_fuel.
      destruct s as [|a s'] eqn:Es; [discriminate|]. rewrite <- Es.
      assert (Hlen : 1 <= len s) by (subst s; unfold len; simpl; lia).
      destruct (exponential_probe_sat s v (Z.to_nat (len s)) 1
                  ltac:(lia) ltac:(lia)) as [_ [b [Eb _]]].
      rewrite Eb. discriminate.
  - intros T num s v extra. split.
    + exact (proj2 (interpolation_search_run s v)).
    + unfold interpolation_search. apply interpolation_loop_more_fuel.
      exact (proj2 (interpolation_search_run s v)).
Qed.

Lemma searches_terminate_witness :
  (0 <= 0 + Z.shiftr (6 - 0) 1 <= 6 /\
   6 - (0 + Z.shiftr (6 - 0) 1 + 1) < 6 - 0 /\
   0 + Z.shiftr (6 - 0) 1 - 1 - 0 < 6 - 0) /\
  (1 < Z.shiftl 1 1 /\ Z.shiftl 1 1 = 2 * 1) /\
  res (binary_search_with_bounds [5; 1; 9; 2; 7] 2 (-9) (Some 20))
  <> Timeout /\
  res (interpolation_search [5.5; 0.5; 9.0]%float 2.0%float) <> Timeout.
Proof.
  destruct searches_terminate as [Hmid [_ [Hdouble [Hord Hnum]]]].
  split; [|split; [|split]].
  - apply (Hmid 0 6). lia.
  - apply (Hdouble 1). lia.
  - exact (proj1 (proj2 (Hord Z PyOrd_int [5; 1; 9; 2; 7] 2 (-9)
                           (Some 20) 0%nat))).
  - exact (proj1 (Hnum float PyNum_float [5.5; 0.5; 9.0]%float 2.0%float
                    0%nat)).
Defined.

(** * Further properties of the searches *)

(** ** The bounded search within its bounds *)

Lemma getitem_outside {T} (s : list T) (i : Z) :
  i < - len s \/ len s <= i -> py_getitem s i = None.
Proof.
  intros Hi. unfold py_getitem.
  assert (Hl : 0 <= len s) by (unfold len; lia).
  destruct (0 <=? i) eqn:E1, (i <? len s) eqn:E2,
           (- len s <=? i) eqn:E3, (i <? 0) eqn:E4; cbn [andb];
    try reflexivity; exfalso; lia.
Qed.

Lemma getitem_negative {T} (s : list T) (i : Z) :
  0 <= i < len s -> py_getitem s (i + - len s) = py_getitem s i.
Proof.
  intros Hi. rewrite (getitem_nonneg s i Hi). unfold py_getitem.
  replace (0 <=? i + - len s) with false
    by (symmetry; apply Z.leb_gt; lia).
  replace (- len s <=? i + - len s) with true
    by (symmetry; apply Z.leb_le; lia).
  replace (i + - len s <? 0) with true by (symmetry; apply Z.ltb_lt; lia).
  cbn [andb]. f_equal. lia.
Qed.

Lemma bounds_loop_in_range {T} {ord : PyOrd T} (s : list T) (v : T)
    (left right : Z) :
  Forall (in_range left right)
    (trace (bounds_loop (Z.to_nat (right - left + 1)) s v left right)).
Proof.
  apply (bounds_loop_sat (in_range left right) (fun _ => True) s v);
    try exact I; try lia.
  intros i Hi. split; [exact Hi | exact I].
Qed.

(** X1. With bounds inside a sorted sequence, [binary_search_with_bounds]
    reads elements of [low..high] only and returns an index of that
    range whose element is [==] to the target, or [-1] when the range has
    none, even if the target occurs elsewhere in the sequence.  The same
    holds with [right] left to its default, on [low..len - 1]. *)
Theorem bounded_search_contract {T} {ord : PyOrd T} {laws : PyOrdLaws T}
    (s : list T) (v : T) (low high : Z) :
  is_sorted s = true -> 0 <= low -> high < len s ->
  run_sat (in_range low high) (search_post s v low high)
    (binary_search_with_bounds s v low (Some high)) /\
  run_sat (in_range low (len s - 1)) (search_post s v low (len s - 1))
    (binary_search_with_bounds s v low None).
Proof.
  intros Hs Hlow Hhigh. unfold binary_search_with_bounds. split; split.
  - apply bounds_loop_in_range.
  - apply bounds_loop_sorted; [exact Hs | exact Hlow | exact Hhigh | lia].
  - apply bounds_loop_in_range.
  - apply bounds_loop_sorted; [exact Hs | exact Hlow | lia | lia].
Qed.

Lemma bounded_search_contract_witness :
  (is_sorted [1; 2; 3; 4; 5; 6] = true /\ 0 <= 3 /\ 5 < len [1; 2; 3; 4; 5; 6]) /\
  run_sat (in_range 3 5) (search_post [1; 2; 3; 4; 5; 6] 3 3 5)
    (binary_search_with_bounds [1; 2; 3; 4; 5; 6] 3 3 (Some 5)).
Proof.
  split; [repeat split; unfold len; simpl; lia|].
  apply (bounded_search_contract [1; 2; 3; 4; 5; 6] 3 3 5);
    [reflexivity | lia | unfold len; simpl; lia].
Defined.

(** X2. Bounds that lie wholly past the end of the sequence, or wholly
    before its negative indices, are not treated as an empty range: the
    first probe raises [IndexError]. *)
Theorem bounds_outside_raise {T} {ord : PyOrd T}
    (s : list T) (v : T) (left right : Z) :
  left <= right ->
  len s <= left \/ right < - len s ->
  binary_search_with_bounds s v left (Some right)
  = mkRun [Access (left + Z.shiftr (right - left) 1)] (Raise IndexError).
Proof.
  intros Hle Hout. unfold binary_search_with_bounds.
  destruct (Z.to_nat (right - left + 1)) as [|fuel] eqn:Ef; [lia|].
  cbn [bounds_loop].
  replace (left <=? right) with true by (symmetry; now apply Z.leb_le).
  pose proof (mid_within left right Hle) as Hmid.
  rewrite bind_index_none; [reflexivity|].
  apply getitem_outside. lia.
Qed.

Lemma bounds_outside_raise_witness :
  binary_search_with_bounds [1; 2; 3] 2 3 (Some 7)
  = mkRun [Access (3 + Z.shiftr (7 - 3) 1)] (Raise IndexError).
Proof.
  apply (bounds_outside_raise [1; 2; 3] 2 3 7); [lia|].
  left. unfold len; simpl; lia.
Defined.

(** ** Negative bounds *)

Lemma bounds_loop_negative {T} {ord : PyOrd T} (s : list T) (v : T) :
  forall (fuel : nat) (left right : Z),
  0 <= left -> right < len s ->
  bounds_loop fuel s v (left + - len s) (right + - len s)
  = offset_run (- len s) (bounds_loop fuel s v left right).
Proof.
  induction fuel as [|fuel IH]; intros left right Hl Hr;
    cbn [bounds_loop];
    replace (left + - len s <=? right + - len s) with (left <=? right)
      by (destruct (left <=? right) eqn:E;
          [apply Z.leb_le in E | apply Z.leb_gt in E];
          symmetry; [apply Z.leb_le | apply Z.leb_gt]; lia);
    destruct (left <=? right) eqn:Hle; try reflexivity.
  apply Z.leb_le in Hle.
  pose proof (mid_within left right Hle) as Hmid.
  replace (right + - len s - (left + - len s)) with (right - left) by lia.
  replace (left + - len s + Z.shiftr (right - left) 1)
    with (left + Z.shiftr (right - left) 1 + - len s) by lia.
  set (mid := left + Z.shiftr (right - left) 1) in *.
  destruct (getitem_defined s mid ltac:(lia)) as [x Gx].
  pose proof (getitem_negative s mid ltac:(lia)) as Gn. rewrite Gx in Gn.
  rewrite (bind_index_some _ _ _ _ Gx), (bind_index_some _ _ _ _ Gn).
  destruct (py_eq x v).
  - unfold offset_run, offset_index. cbn.
    replace (mid =? -1) with false by (symmetry; apply Z.eqb_neq; lia).
    reflexivity.
  - destruct (py_lt x v).
    + replace (mid + - len s + 1) with (mid + 1 + - len s) by lia.
      rewrite IH by lia. reflexivity.
    + replace (mid + - len s - 1) with (mid - 1 + - len s) by lia.
      rewrite IH by lia. reflexivity.
Qed.

(** X3. Negative bounds count from the end, as Python subscripts do: for
    [-len <= left] and [right <= -1] the search probes and returns the
    indices of the search between [left + len] and [right + len], each
    less [len].  A target found at the last element is therefore returned
    as [-1], the value that also means not found. *)
Theorem negative_bounds_wrap {T} {ord : PyOrd T}
    (s : list T) (v : T) (left right : Z) :
  - len s <= left -> right <= -1 ->
  binary_search_with_bounds s v left (Some right)
  = offset_run (- len s)
      (binary_search_with_bounds s v (left + len s) (Some (right + len s)))
  /\ (matches s v (-1) = true ->
      binary_search_with_bounds s v (-1) (Some (-1))
      = mkRun [Access (-1)] (Ret (-1))).
Proof.
  intros Hl Hr. split.
  - unfold binary_search_with_bounds.
    replace (right + len s - (left + len s) + 1) with (right - left + 1)
      by lia.
    rewrite <- bounds_loop_negative by lia. f_equal; lia.
  - intros M. unfold matches in M.
    destruct (py_getitem s (-1)) as [x|] eqn:G; [|discriminate].
    unfold binary_search_with_bounds. cbn.
    change (bind (index s (-1))
              (fun mid_value =>
                 if py_eq mid_value v then ret (-1)
                 else if py_lt mid_value v
                      then bounds_loop 0 s v (-1 + 1) (-1)
                      else bounds_loop 0 s v (-1) (-1 - 1))
            = mkRun [Access (-1)] (Ret (-1))).
    rewrite (bind_index_some _ _ _ _ G), M. reflexivity.
Qed.

Lemma negative_bounds_wrap_witness :
  binary_search_with_bounds [1; 2; 3; 4; 5; 6] 5 (-3) (Some (-1))
  = offset_run (- len [1; 2; 3; 4; 5; 6])
      (binary_search_with_bounds [1; 2; 3; 4; 5; 6] 5
         (-3 + len [1; 2; 3; 4; 5; 6])
         (Some (-1 + len [1; 2; 3; 4; 5; 6]))) /\
  binary_search_with_bounds [1; 2; 3; 4; 5; 6] 6 (-1) (Some (-1))
  = mkRun [Access (-1)] (Ret (-1)).
Proof.
  split.
  - apply (negative_bounds_wrap [1; 2; 3; 4; 5; 6] 5 (-3) (-1));
      unfold len; simpl; lia.
  - apply (negative_bounds_wrap [1; 2; 3; 4; 5; 6] 6 (-1) (-1));
      [unfold len; simpl; lia | lia | reflexivity].
Defined.

(** ** Unsorted input *)

Lemma bounds_loop_sound {T} {ord : PyOrd T} (s : list T) (v : T) :
  forall (fuel : nat) (left right : Z),
  0 <= left -> right < len s ->
  (Z.to_nat (right - left + 1) <= fuel)%nat ->
  sound s v (res (bounds_loop fuel s v left right)).
Proof.
  induction fuel as [|fuel IH]; intros left right Hl Hr Hf;
    cbn [bounds_loop];
    (destruct (left <=? right) eqn:Hle;
     [apply Z.leb_le in Hle
     |exists (-1); split; [reflexivity | apply or_introl; reflexivity]]).
  { lia. }
  pose proof (mid_within left right Hle) as Hmid.
  set (mid := left + Z.shiftr (right - left) 1) in *.
  destruct (getitem_defined s mid ltac:(lia)) as [x Gx].
  rewrite (bind_index_some _ _ _ _ Gx); cbn [res].
  destruct (py_eq x v) eqn:Exv.
  - exists mid. split; [reflexivity|]. right.
    split; [lia | exact (matches_intro s v x mid Gx Exv)].
  - destruct (py_lt x v); apply IH; lia.
Qed.

Lemma interpolation_loop_sound_any {T} {num : PyNum T}
    (s : list T) (v : T) :
  forall (fuel : nat) (left right : Z),
  0 <= left -> right < len s ->
  (Z.to_nat (right - left + 1) <= fuel)%nat ->
  zero_division (res (interpolation_loop fuel s v left right)) \/
  int_raised (res (interpolation_loop fuel s v left right)) \/
  sound s v (res (interpolation_loop fuel s v left right)).
Proof.
  assert (Hnone : zero_division (res (@ret Z (-1))) \/
                  int_raised (res (@ret Z (-1))) \/
                  sound s v (res (ret (-1)))).
  { right. right. exists (-1). split; [reflexivity | now left]. }
  induction fuel as [|fuel IH]; intros left right Hl Hr Hf;
    cbn [interpolation_loop];
    (destruct (left <=? right) eqn:Hle;
     [apply Z.leb_le in Hle | exact Hnone]);
    destruct (getitem_defined s left ltac:(lia)) as [lo Glo];
    destruct (getitem_defined s right ltac:(lia)) as [hi Ghi];
    rewrite (bind_index_some _ _ _ _ Glo); cbn [res];
    (destruct (py_le lo v) eqn:Hlo; [|exact Hnone]);
    rewrite (bind_index_some _ _ _ _ Ghi); cbn [res];
    (destruct (py_le v hi) eqn:Hhi; [|exact Hnone]).
  { lia. }
  rewrite (bind_index_some _ _ _ _ Glo); cbn [res].
  rewrite (bind_index_some _ _ _ _ Ghi); cbn [res].
  destruct (py_eq lo hi) eqn:Elh.
  - rewrite (bind_index_some _ _ _ _ Glo); cbn [res].
    destruct (py_eq lo v) eqn:Elv; [|exact Hnone].
    right. right. exists left. split; [reflexivity|]. right.
    split; [lia | exact (matches_intro s v lo left Glo Elv)].
  - rewrite (bind_index_some _ _ _ _ Glo); cbn [res].
    rewrite (bind_index_some _ _ _ _ Ghi); cbn [res].
    rewrite (bind_index_some _ _ _ _ Glo); cbn [res].
    destruct (py_is_zero (py_sub hi lo)) eqn:Hz.
    { rewrite (bind_truediv_zero _ _ _ Hz). cbn [res].
      left. exists lo, hi. repeat split; assumption. }
    destruct (py_int_quotient
                (py_mul_index (py_sub v lo) (right - left)) (py_sub hi lo))
      as [e|q] eqn:Eq.
    { rewrite (bind_truediv_raise _ _ e _ Hz Eq). cbn [res].
      right. left.
      now exists e, (py_mul_index (py_sub v lo) (right - left)),
                 (py_sub hi lo). }
    rewrite (bind_truediv_ok _ _ q _ Hz Eq). cbn [res].
    destruct (clamp_narrows left right (left + q) Hle) as [Hpos _].
    cbv zeta in Hpos.
    set (pos := Z.max left (Z.min (left + q) right)) in *.
    destruct (getitem_defined s pos ltac:(lia)) as [p Gp].
    rewrite (bind_index_some _ _ _ _ Gp); cbn [res].
    destruct (py_eq p v) eqn:Epv.
    + right. right. exists pos. split; [reflexivity|]. right.
      split; [lia | exact (matches_intro s v p pos Gp Epv)].
    + rewrite (bind_index_some _ _ _ _ Gp); cbn [res].
      destruct (py_lt p v); apply IH; lia.
Qed.

Lemma interpolation_loop_sound {T} {num : PyNum T} {laws : PyNumLaws T}
    (s : list T) (v : T) :
  forall (fuel : nat) (left right : Z),
  0 <= left -> right < len s ->
  (Z.to_nat (right - left + 1) <= fuel)%nat ->
  int_raised (res (interpolation_loop fuel s v left right)) \/
  sound s v (res (interpolation_loop fuel s v left right)).
Proof.
  intros fuel left right Hl Hr Hf.
  destruct (interpolation_loop_sound_any s v fuel left right Hl Hr Hf)
    as [Hzero | H]; [|exact H].
  destruct (no_zero_division _ Hzero).
Qed.

Lemma binary_search_sound {T} {ord : PyOrd T} (s : list T) (v : T) :
  sound s v (res (binary_search s v)).
Proof.
  unfold binary_search. rewrite loops_agree.
  apply bounds_loop_sound; lia.
Qed.

Lemma exponential_search_sound {T} {ord : PyOrd T} (s : list T) (v : T) :
  sound s v (res (exponential_search s v)).
Proof.
  unfold exponential_search. destruct s as [|x0 tl].
  { exists (-1). split; [reflexivity | now left]. }
  set (s := x0 :: tl).
  destruct (exponential_probe_sat s v (Z.to_nat (len s)) 1
              ltac:(lia) ltac:(lia)) as [_ [b [Eb Hb]]].
  unfold bind. rewrite Eb. cbn [res].
  unfold binary_search_with_bounds.
  rewrite shiftr_1. apply bounds_loop_sound; [|lia..].
  apply Z.div_pos; lia.
Qed.

(** X4. On any list, sorted or not, [binary_search] and
    [exponential_search] return: they raise nothing, and what they return
    is [-1] or an index whose element is [==] to the target.  On an
    unsorted list they can miss the target, never report a wrong place. *)
Theorem bisections_no_false_positive {T} {ord : PyOrd T}
    (s : list T) (v : T) :
  sound s v (res (binary_search s v)) /\
  sound s v (res (exponential_search s v)).
Proof.
  split; [apply binary_search_sound | apply exponential_search_sound].
Qed.


(** ** The number of probes *)

Lemma probes_bind_index {T B} (s : list T) (i : Z) (f : T -> run B) :
  probes (bind (index s i) f)
  = match py_getitem s i with
    | Some x => 1 + probes (f x)
    | None => 1
    end.
Proof.
  unfold probes. destruct (py_getitem s i) as [x|] eqn:G.
  - rewrite (bind_index_some _ _ _ _ G). cbn [trace List.length]. lia.
  - rewrite (bind_index_none _ _ _ G). reflexivity.
Qed.

Lemma probes_nonneg {A} (r : run A) : 0 <= probes r.
Proof. unfold probes. lia. Qed.

Lemma log2_half (w w' : Z) :
  1 <= w' -> w' <= w / 2 -> Z.log2 w' + 1 <= Z.log2 w.
Proof.
  intros H1 H2.
  assert (Hw : 2 * w' <= w).
  { pose proof (Z.mul_div_le w 2 ltac:(lia)). lia. }
  pose proof (Z.log2_double w' ltac:(lia)) as Hd.
  pose proof (Z.log2_le_mono (2 * w') w Hw). lia.
Qed.

Lemma bounds_loop_probes {T} {ord : PyOrd T} (s : list T) (v : T) :
  forall (fuel : nat) (left right : Z),
  probes (bounds_loop fuel s v left right)
  <= if left <=? right then Z.log2 (right - left + 1) + 1 else 0.
Proof.
  induction fuel as [|fuel IH]; intros left right; cbn [bounds_loop];
    destruct (left <=? right) eqn:Hle; try (cbn; lia).
  { apply Z.leb_le in Hle.
    pose proof (Z.log2_nonneg (right - left + 1)). cbn. lia. }
  apply Z.leb_le in Hle.
  pose proof (Z.log2_nonneg (right - left + 1)) as Hlog.
  pose proof (mid_within left right Hle) as Hmid.
  pose proof (shiftr_1 (right - left)) as Hshift.
  set (mid := left + Z.shiftr (right - left) 1) in *.
  rewrite probes_bind_index.
  destruct (py_getitem s mid) as [x|]; [|lia].
  destruct (py_eq x v); [cbn; lia|].
  assert (Hhalf : (right - left) / 2 <= (right - left + 1) / 2)
    by (apply Z.div_le_mono; lia).
  assert (Hup : right - (mid + 1) + 1 <= (right - left + 1) / 2).
  { pose proof (Z.div_mod (right - left) 2 ltac:(lia)).
    pose proof (Z.div_mod (right - left + 1) 2 ltac:(lia)).
    pose proof (Z.mod_pos_bound (right - left) 2 ltac:(lia)).
    pose proof (Z.mod_pos_bound (right - left + 1) 2 ltac:(lia)).
    lia. }
  destruct (py_lt x v).
  - specialize (IH (mid + 1) right).
    destruct (mid + 1 <=? right) eqn:E; [apply Z.leb_le in E | lia].
    pose proof (log2_half (right - left + 1) (right - (mid + 1) + 1)
                  ltac:(lia) Hup).
    lia.
  - specialize (IH left (mid - 1)).
    destruct (left <=? mid - 1) eqn:E; [apply Z.leb_le in E | lia].
    pose proof (log2_half (right - left + 1) (mid - 1 - left + 1)
                  ltac:(lia) ltac:(lia)).
    lia.
Qed.

Lemma exponential_probe_probes {T} {ord : PyOrd T} (s : list T) (v : T)
    (length : Z) :
  forall (fuel : nat) (bound : Z),
  1 <= bound ->
  probes (exponential_probe fuel s v length bound)
  <= if bound <? length then Z.log2 (length - 1) - Z.log2 bound + 1 else 0.
Proof.
  induction fuel as [|fuel IH]; intros bound Hb; cbn [exponential_probe];
    destruct (bound <? length) eqn:Hlt; try (cbn; lia);
    apply Z.ltb_lt in Hlt;
    pose proof (Z.log2_le_mono bound (length - 1) ltac:(lia)) as Hmono.
  { cbn. lia. }
  rewrite probes_bind_index.
  destruct (py_getitem s bound) as [x|]; [|lia].
  destruct (py_lt x v); [|cbn; lia].
  rewrite shiftl_1. specialize (IH (2 * bound) ltac:(lia)).
  destruct (2 * bound <? length) eqn:E; [|lia].
  rewrite Z.log2_double in IH by lia. lia.
Qed.

Lemma probes_bind {A B} (m : run A) (f : A -> run B) (a : A) :
  res m = Ret a -> probes (bind m f) = probes m + probes (f a).
Proof.
  intros E. unfold probes, bind. rewrite E. cbn [trace].
  rewrite length_app. lia.
Qed.

(** X6. The bisections probe a logarithmic number of elements, on any
    list and for any target: [binary_search] at most [log2 len + 1],
    a bounded search at most [log2 (right - left + 1) + 1], and
    [exponential_search] at most [2 * log2 len + 2]. *)
Theorem bisection_probes_logarithmic {T} {ord : PyOrd T}
    (s : list T) (v : T) (left right : Z) :
  probes (binary_search s v) <= Z.log2 (len s) + 1 /\
  probes (binary_search_with_bounds s v left (Some right))
    <= Z.log2 (right - left + 1) + 1 /\
  probes (exponential_search s v) <= 2 * Z.log2 (len s) + 2.
Proof.
  split; [|split].
  - unfold binary_search. rewrite loops_agree.
    generalize (Z.to_nat (len s - 1 - 0 + 1)). intros fuel.
    pose proof (bounds_loop_probes s v fuel 0 (len s - 1)) as H.
    pose proof (Z.log2_nonneg (len s)).
    destruct (0 <=? len s - 1); [|lia].
    replace (len s - 1 - 0 + 1) with (len s) in H by lia. exact H.
  - unfold binary_search_with_bounds.
    pose proof (bounds_loop_probes s v
                  (Z.to_nat (right - left + 1)) left right) as H.
    pose proof (Z.log2_nonneg (right - left + 1)).
    destruct (left <=? right); lia.
  - unfold exponential_search. destruct s as [|x0 tl].
    { cbn. lia. }
    set (s := x0 :: tl).
    assert (Hlen : 1 <= len s) by (unfold len, s; cbn [List.length]; lia).
    destruct (exponential_probe_sat s v (Z.to_nat (len s)) 1
                ltac:(lia) ltac:(lia)) as [_ [b [Eb Hb]]].
    rewrite (probes_bind _ _ b Eb).
    pose proof (exponential_probe_probes s v (len s) (Z.to_nat (len s)) 1
                  ltac:(lia)) as Hp.
    unfold binary_search_with_bounds.
    pose proof (bounds_loop_probes s v
                  (Z.to_nat (Z.min b (len s - 1) - Z.shiftr b 1 + 1))
                  (Z.shiftr b 1) (Z.min b (len s - 1))) as Hq.
    rewrite shiftr_1 in *.
    pose proof (Z.log2_nonneg (len s)).
    pose proof (Z.log2_le_mono (len s - 1) (len s) ltac:(lia)).
    assert (Hw : Z.log2 (Z.min b (len s - 1) - b / 2 + 1)
                 <= Z.log2 (len s)).
    { apply Z.log2_le_mono.
      assert (0 <= b / 2) by (apply Z.div_pos; lia). lia. }
    change (Z.log2 1) with 0 in Hp.
    destruct (1 <? len s), (b / 2 <=? Z.min b (len s - 1)); lia.
Qed.

Lemma exponential_probe_position {T} {ord : PyOrd T} {laws : PyOrdLaws T}
    (s : list T) (v : T) (i : Z) :
  is_sorted s = true -> 0 <= i < len s -> matches s v i = true ->
  forall (fuel : nat) (bound : Z),
  (Z.to_nat (len s - bound) <= fuel)%nat ->
  bound = 1 \/ (exists h, bound = 2 * h /\ 1 <= h < i) ->
  exists b,
    res (exponential_probe fuel s v (len s) bound) = Ret b /\
    (b = 1 \/ (exists h, b = 2 * h /\ 1 <= h < i)) /\
    probes (exponential_probe fuel s v (len s) bound)
    <= Z.log2 b - Z.log2 bound + 1.
Proof.
  intros Hs Hi Mi.
  induction fuel as [|fuel IH]; intros bound Hf Hb;
    cbn [exponential_probe];
    (destruct (bound <? len s) eqn:Hlt;
     [apply Z.ltb_lt in Hlt
     |exists bound; split; [reflexivity | split; [exact Hb | cbn; lia]]]).
  { lia. }
  assert (H1 : 1 <= bound) by (destruct Hb as [-> | [h [-> Hh]]]; lia).
  destruct (getitem_defined s bound ltac:(lia)) as [x Gx].
  rewrite probes_bind_index, (bind_index_some _ _ _ _ Gx), Gx. cbn [res].
  destruct (py_lt x v) eqn:Lxv;
    [|exists bound; split; [reflexivity | split; [exact Hb | cbn; lia]]].
  assert (Hbi : bound < i).
  { destruct (Z_lt_ge_dec bound i) as [Hlt' | Hge]; [exact Hlt'|].
    pose proof (below_excludes s v x bound i Hs ltac:(lia) ltac:(lia)
                  Hlt Gx Lxv).
    congruence. }
  rewrite shiftl_1.
  destruct (IH (2 * bound) ltac:(lia)
              (or_intror (ex_intro _ bound (conj eq_refl (conj H1 Hbi)))))
    as [b [Eb [Hb' Hp]]].
  exists b. split; [exact Eb | split; [exact Hb'|]].
  rewrite Z.log2_double in Hp by lia. lia.
Qed.

(** X7. On a sorted sequence that holds the target at index [i],
    [exponential_search] makes at most [2 * log2 i + 3] probes, however
    long the sequence is. *)
Theorem exponential_probes_by_position {T} {ord : PyOrd T}
    {laws : PyOrdLaws T} (s : list T) (v : T) (i : Z) :
  is_sorted s = true -> 0 <= i < len s -> matches s v i = true ->
  probes (exponential_search s v) <= 2 * Z.log2 i + 3.
Proof.
  intros Hs Hi Mi. unfold exponential_search. destruct s as [|x0 tl].
  { unfold len in Hi. cbn in Hi. lia. }
  set (s := x0 :: tl) in *.
  destruct (exponential_probe_position s v i Hs Hi Mi (Z.to_nat (len s)) 1
              ltac:(lia) (or_introl eq_refl)) as [b [Eb [Hb Hp]]].
  rewrite (probes_bind _ _ b Eb).
  unfold binary_search_with_bounds.
  pose proof (bounds_loop_probes s v
                (Z.to_nat (Z.min b (len s - 1) - Z.shiftr b 1 + 1))
                (Z.shiftr b 1) (Z.min b (len s - 1))) as Hq.
  rewrite shiftr_1 in *.
  change (Z.log2 1) with 0 in Hp.
  pose proof (Z.log2_nonneg i) as Hlog.
  destruct Hb as [-> | [h [-> Hh]]].
  - change (1 / 2) with 0 in *. change (Z.log2 1) with 0 in Hp.
    assert (Hw : Z.log2 (Z.min 1 (len s - 1) - 0 + 1) <= 1).
    { pose proof (Z.log2_le_mono (Z.min 1 (len s - 1) - 0 + 1) 2
                    ltac:(lia)) as Hm.
      change (Z.log2 2) with 1 in Hm. exact Hm. }
    destruct (0 <=? Z.min 1 (len s - 1)); lia.
  - assert (Hh2 : 2 * h / 2 = h)
      by (rewrite (Z.mul_comm 2 h); apply Z.div_mul; lia).
    rewrite Hh2 in *.
    rewrite Z.log2_double in Hp by lia.
    pose proof (Z.log2_le_mono h i ltac:(lia)).
    pose proof (Z.log2_le_mono (Z.min (2 * h) (len s - 1) - h + 1) i
                  ltac:(lia)).
    destruct (h <=? Z.min (2 * h) (len s - 1)); lia.
Qed.

Lemma exponential_probes_by_position_witness :
  (is_sorted [1; 3; 5; 7; 9; 11; 13; 15] = true /\
   0 <= 2 < len [1; 3; 5; 7; 9; 11; 13; 15] /\
   matches [1; 3; 5; 7; 9; 11; 13; 15] 5 2 = true) /\
  probes (exponential_search [1; 3; 5; 7; 9; 11; 13; 15] 5)
  <= 2 * Z.log2 2 + 3.
Proof.
  split; [repeat split; unfold len; simpl; lia|].
  apply (exponential_probes_by_position [1; 3; 5; 7; 9; 11; 13; 15] 5 2);
    [reflexivity | unfold len; simpl; lia | reflexivity].
Defined.

Lemma probes_bind_le {A B} (m : run A) (f : A -> run B) (n : Z) :
  (forall a, probes (f a) <= n) -> 0 <= n ->
  probes (bind m f) <= probes m + n.
Proof.
  intros Hf Hn. unfold bind.
  destruct (res m) as [a| |] eqn:E; unfold probes in *; cbn [trace].
  - rewrite length_app. specialize (Hf a). lia.
  - lia.
  - lia.
Qed.

Lemma probes_index {T} (s : list T) (i : Z) : probes (index s i) = 1.
Proof.
  unfold index, probes, bind, log. cbn.
  destruct (py_getitem s i); reflexivity.
Qed.

Lemma probes_truediv {T} {num : PyNum T} (x y : T) :
  probes (int_truediv x y) = 1.
Proof.
  unfold int_truediv, probes, bind, log. cbn.
  destruct (py_is_zero y); [reflexivity|].
  destruct (py_int_quotient x y); reflexivity.
Qed.

Lemma probes_index_le {T B} (s : list T) (i : Z) (f : T -> run B) (n : Z) :
  (forall x, probes (f x) <= n - 1) -> 1 <= n ->
  probes (bind (index s i) f) <= n.
Proof.
  intros Hf Hn.
  pose proof (probes_bind_le (index s i) f (n - 1) Hf ltac:(lia)) as H.
  rewrite probes_index in H. lia.
Qed.

Lemma probes_truediv_le {T B} {num : PyNum T} (x y : T) (f : Z -> run B)
    (n : Z) :
  (forall q, probes (f q) <= n - 1) -> 1 <= n ->
  probes (bind (int_truediv x y) f) <= n.
Proof.
  intros Hf Hn.
  pose proof (probes_bind_le (int_truediv x y) f (n - 1) Hf ltac:(lia))
    as H.
  rewrite probes_truediv in H. lia.
Qed.

Ltac ended :=
  unfold probes, ret, timeout, lift; cbn [trace List.length]; lia.

Lemma interpolation_loop_probes {T} {num : PyNum T} (s : list T) (v : T) :
  forall (fuel : nat) (left right : Z),
  probes (interpolation_loop fuel s v left right)
  <= 10 * Z.max 0 (right - left + 1).
Proof.
  induction fuel as [|fuel IH]; intros left right;
    cbn [interpolation_loop];
    (destruct (left <=? right) eqn:Hle;
     [apply Z.leb_le in Hle | ended]);
    (apply probes_index_le; [intros lo | lia]);
    (destruct (py_le lo v); [|ended]);
    (apply probes_index_le; [intros hi | lia]);
    (destruct (py_le v hi); [|ended]).
  { ended. }
  apply probes_index_le; [intros lo1 | lia].
  apply probes_index_le; [intros hi1 | lia].
  destruct (py_eq lo1 hi1).
  { apply probes_index_le; [intros lo2 | lia].
    destruct (py_eq lo2 v); ended. }
  apply probes_index_le; [intros lo3 | lia].
  apply probes_index_le; [intros hi4 | lia].
  apply probes_index_le; [intros lo4 | lia].
  apply probes_truediv_le; [intros q | lia].
  destruct (clamp_narrows left right (left + q) Hle) as [Hpos _].
  cbv zeta in Hpos.
  set (pos := Z.max left (Z.min (left + q) right)) in *.
  apply probes_index_le; [intros p1 | lia].
  destruct (py_eq p1 v); [ended|].
  apply probes_index_le; [intros p2 | lia].
  destruct (py_lt p2 v).
  - specialize (IH (pos + 1) right). lia.
  - specialize (IH left (pos - 1)). lia.
Qed.

(** X8. [interpolation_search] makes at most ten subscripts and
    divisions per element of the list, on any list of any numbers and
    for any target: its number of steps is at most linear in the length
    of the list. *)
Theorem interpolation_probes_linear {T} {num : PyNum T}
    (s : list T) (v : T) :
  probes (interpolation_search s v) <= 10 * len s.
Proof.
  unfold interpolation_search.
  generalize (Z.to_nat (len s - 1 - 0 + 1)). intros fuel.
  pose proof (interpolation_loop_probes s v fuel 0 (len s - 1)) as H.
  assert (0 <= len s) by (unfold len; lia). lia.
Qed.


(** ** Sequences without repetition *)

Section StrictlySorted.

Context {T : Type} {ord : PyOrd T} {laws : PyOrdLaws T}.

Lemma strictly_sorted_cons (x : T) (tl : list T) :
  strictly_sorted (x :: tl) = true ->
  py_eq x x = true /\ strictly_sorted tl = true.
Proof.
  cbn [strictly_sorted]. intros H.
  apply andb_prop in H. destruct H as [H Htl].
  apply andb_prop in H. destruct H as [Hx _]. now split.
Qed.

Lemma strictly_sorted_head (tl : list T) :
  forall x : T, strictly_sorted (x :: tl) = true ->
  forall (j : nat) (y : T), nth_error tl j = Some y -> py_lt x y = true.
Proof.
  induction tl as [|z tl IH]; intros x Hs j y Gy.
  - destruct j; discriminate Gy.
  - assert (Hxz : py_lt x z = true).
    { cbn [strictly_sorted] in Hs.
      apply andb_prop in Hs. destruct Hs as [Hs _].
      apply andb_prop in Hs. now destruct Hs as [_ Hs]. }
    destruct (strictly_sorted_cons _ _ Hs) as [_ Htl].
    destruct j as [|j]; cbn [nth_error] in Gy.
    + now inversion Gy; subst.
    + exact (py_lt_trans _ _ _ Hxz (IH z Htl j y Gy)).
Qed.

Lemma strictly_sorted_nth (s : list T) :
  strictly_sorted s = true ->
  forall (i j : nat) (x y : T), (i < j)%nat ->
  nth_error s i = Some x -> nth_error s j = Some y -> py_lt x y = true.
Proof.
  induction s as [|z tl IH]; intros Hs i j x y Hij Gx Gy.
  - destruct i; discriminate Gx.
  - destruct j as [|j]; [lia|]. cbn [nth_error] in Gy.
    destruct i as [|i]; cbn [nth_error] in Gx.
    + inversion Gx; subst. exact (strictly_sorted_head tl x Hs j y Gy).
    + destruct (strictly_sorted_cons _ _ Hs) as [_ Htl].
      apply (IH Htl i j x y); [lia | assumption..].
Qed.

Lemma strictly_sorted_is_sorted (s : list T) :
  strictly_sorted s = true -> is_sorted s = true.
Proof.
  induction s as [|x tl IH]; [reflexivity|]. intros Hs.
  destruct (strictly_sorted_cons _ _ Hs) as [Hx Htl].
  cbn [is_sorted]. rewrite Hx, (IH Htl), andb_true_r. cbn [andb].
  destruct tl as [|y tl']; [reflexivity|].
  pose proof (strictly_sorted_head _ x Hs 0%nat y eq_refl) as Hxy.
  destruct (py_lt y x) eqn:Hyx; [|reflexivity].
  pose proof (py_lt_trans _ _ _ Hxy Hyx) as Hxx.
  rewrite (py_eq_not_lt _ _ Hx) in Hxx. discriminate Hxx.
Qed.

Lemma strict_match_unique (s : list T) (v : T) (i j : Z) :
  strictly_sorted s = true ->
  0 <= i < len s -> 0 <= j < len s ->
  matches s v i = true -> matches s v j = true -> i = j.
Proof.
  intros Hs Hi Hj Mi Mj.
  destruct (matches_inv _ _ _ Mi) as [x [Gx Ex]].
  destruct (matches_inv _ _ _ Mj) as [y [Gy Ey]].
  rewrite getitem_nonneg in Gx, Gy by assumption.
  pose proof (py_eq_trans _ _ _ Ex (py_eq_sym _ _ Ey)) as Exy.
  destruct (Z.lt_trichotomy i j) as [Hlt | [Heq | Hgt]]; [|exact Heq|].
  - pose proof (strictly_sorted_nth s Hs (Z.to_nat i) (Z.to_nat j) x y
                  ltac:(lia) Gx Gy) as L.
    rewrite (py_eq_not_lt _ _ Exy) in L. discriminate L.
  - pose proof (strictly_sorted_nth s Hs (Z.to_nat j) (Z.to_nat i) y x
                  ltac:(lia) Gy Gx) as L.
    rewrite (py_eq_not_lt _ _ (py_eq_sym _ _ Exy)) in L. discriminate L.
Qed.

Lemma strict_decides_unique (s : list T) (v : T) (r1 r2 : result Z) :
  strictly_sorted s = true ->
  decides s v r1 -> decides s v r2 -> r1 = r2.
Proof.
  intros Hs [F1 N1] [F2 N2].
  destruct (contains s v) eqn:Hc.
  - destruct (F1 eq_refl) as [i [-> [Hi Mi]]].
    destruct (F2 eq_refl) as [j [-> [Hj Mj]]].
    f_equal. exact (strict_match_unique s v i j Hs Hi Hj Mi Mj).
  - rewrite (N1 eq_refl), (N2 eq_refl). reflexivity.
Qed.

End StrictlySorted.

(** X10. On a sorted sequence without repetition there is one right
    answer, and [exponential_search] returns what [binary_search]
    returns. *)
Theorem strict_exponential_is_binary {T} {ord : PyOrd T}
    {laws : PyOrdLaws T} (s : list T) (v : T) :
  strictly_sorted s = true ->
  res (exponential_search s v) = res (binary_search s v).
Proof.
  intros Hs. pose proof (strictly_sorted_is_sorted s Hs) as Hsorted.
  apply (strict_decides_unique s v _ _ Hs).
  - exact (exponential_search_decides s v Hsorted).
  - exact (binary_search_decides s v Hsorted).
Qed.

Lemma strict_exponential_is_binary_witness :
  strictly_sorted ["apple"; "banana"; "cherry"; "date"]%string = true /\
  res (exponential_search ["apple"; "banana"; "cherry"; "date"]%string
         "cherry"%string)
  = res (binary_search ["apple"; "banana"; "cherry"; "date"]%string
           "cherry"%string).
Proof.
  split; [reflexivity|].
  apply (strict_exponential_is_binary
           ["apple"; "banana"; "cherry"; "date"]%string "cherry"%string).
  reflexivity.
Defined.



(** ** Arithmetic progressions: [range], evenly spaced data *)

Lemma progression_len (first step : Z) (n : nat) :
  len (progression first step n) = Z.of_nat n.
Proof. unfold len, progression. now rewrite length_map, length_seq. Qed.

Lemma progression_getitem (first step : Z) (n : nat) (i : Z) :
  0 <= i < Z.of_nat n ->
  py_getitem (progression first step n) i = Some (first + step * i).
Proof.
  intros Hi. rewrite getitem_nonneg by (rewrite progression_len; lia).
  unfold progression. rewrite nth_error_map, nth_error_seq.
  replace (Z.to_nat i <? n)%nat with true
    by (symmetry; apply Nat.ltb_lt; lia).
  cbn [option_map Nat.add]. rewrite Z2Nat.id by lia. reflexivity.
Qed.

Lemma progression_strict (step : Z) (n : nat) :
  0 < step ->
  forall first : Z, strictly_sorted (progression first step n) = true.
Proof.
  intros Hstep. unfold progression.
  assert (H : forall (k : nat) (first : Z),
            strictly_sorted
              (map (fun i => first + step * Z.of_nat i) (seq k n)) = true).
  { induction n as [|n IH]; intros k first; [reflexivity|].
    cbn [seq map strictly_sorted]. rewrite IH, andb_true_r.
    cbn [py_eq PyOrd_int]. rewrite Z.eqb_refl. cbn [andb].
    destruct n as [|n]; [reflexivity|]. cbn [seq map py_lt PyOrd_int].
    apply Z.ltb_lt. nia. }
  intros first. apply H.
Qed.

Lemma range_is_progression (n : nat) : py_range n = progression 0 1 n.
Proof.
  unfold py_range, progression. apply map_ext. intros i. lia.
Qed.

Lemma range_decides (n : nat) (k : Z) :
  decides (py_range n) k
    (Ret (if (0 <=? k) && (k <? Z.of_nat n) then k else -1)).
Proof.
  rewrite range_is_progression.
  assert (Hm : forall i, 0 <= i < Z.of_nat n ->
            matches (progression 0 1 n) k i = (i =? k)).
  { intros i Hi. unfold matches. rewrite progression_getitem by exact Hi.
    cbn [py_eq PyOrd_int]. f_equal. lia. }
  destruct ((0 <=? k) && (k <? Z.of_nat n)) eqn:Hk.
  - apply andb_prop in Hk. destruct Hk as [H0 Hn].
    apply Z.leb_le in H0. apply Z.ltb_lt in Hn.
    assert (Hc : contains (progression 0 1 n) k = true).
    { apply contains_matches. exists k. rewrite progression_len.
      split; [lia|]. rewrite Hm by lia. apply Z.eqb_refl. }
    split; [|congruence].
    intros _. exists k. rewrite progression_len.
    split; [reflexivity | split; [lia|]].
    rewrite Hm by lia. apply Z.eqb_refl.
  - assert (Hc : contains (progression 0 1 n) k = false).
    { destruct (contains (progression 0 1 n) k) eqn:Hc; [|reflexivity].
      apply contains_matches in Hc. destruct Hc as [i [Hi Mi]].
      rewrite progression_len in Hi. rewrite Hm in Mi by exact Hi.
      apply Z.eqb_eq in Mi. subst i.
      replace (0 <=? k) with true in Hk by (symmetry; apply Z.leb_le; lia).
      replace (k <? Z.of_nat n) with true in Hk
        by (symmetry; apply Z.ltb_lt; lia).
      discriminate Hk. }
    split; [congruence | reflexivity].
Qed.

(** X12. The searches of [test_performance] and of the benchmark, for
    every size and target: on [list(range(n))] each of the four searches
    returns the target itself when it lies in [0, n), and [-1]
    otherwise. *)
Theorem range_searches_return_target (n : nat) (k : Z)
    (int_quotient : Z -> Z -> Z) :
  let expected := Ret (if (0 <=? k) && (k <? Z.of_nat n) then k else -1) in
  res (binary_search (py_range n) k) = expected /\
  res (binary_search_with_bounds (py_range n) k 0 None) = expected /\
  res (exponential_search (py_range n) k) = expected /\
  res (interpolation_search_int int_quotient (py_range n) k) = expected.
Proof.
  intros expected.
  assert (Hstrict : strictly_sorted (py_range n) = true)
    by (rewrite range_is_progression; apply progression_strict; lia).
  pose proof (strictly_sorted_is_sorted _ Hstrict) as Hsorted.
  pose proof (range_decides n k) as Hd. fold expected in Hd.
  assert (Hb : res (binary_search (py_range n) k) = expected).
  { apply (strict_decides_unique (py_range n) k _ _ Hstrict); [|exact Hd].
    exact (binary_search_decides _ _ Hsorted). }
  split; [exact Hb | split; [|split]].
  - rewrite <- Hb. unfold binary_search. rewrite loops_agree. reflexivity.
  - apply (strict_decides_unique (py_range n) k _ _ Hstrict); [|exact Hd].
    exact (exponential_search_decides _ _ Hsorted).
  - apply (strict_decides_unique (py_range n) k _ _ Hstrict); [|exact Hd].
    unfold interpolation_search_int.
    destruct (interpolation_search_decides
                (laws := PyNumLaws_int int_quotient) (py_range n) k Hsorted)
      as [[e [x [y [F _]]]] | Hi]; [discriminate F | exact Hi].
Qed.

Lemma bind_index_run {T B} (s : list T) (i : Z) (x : T) (f : T -> run B)
    (t : list event) (r : result B) :
  py_getitem s i = Some x -> f x = mkRun t r ->
  bind (index s i) f = mkRun (Access i :: t) r.
Proof.
  intros G E. rewrite (bind_index_some _ _ _ _ G), E. reflexivity.
Qed.

Lemma bind_truediv_run {T B} {num : PyNum T} (x y : T) (q : Z)
    (f : Z -> run B) (t : list event) (r : result B) :
  py_is_zero y = false -> py_int_quotient x y = inr q ->
  f q = mkRun t r ->
  bind (int_truediv x y) f = mkRun (Divide false :: t) r.
Proof.
  intros Hz Hq E. rewrite (bind_truediv_ok _ _ q _ Hz Hq), E.
  reflexivity.
Qed.

(** X13. On evenly spaced integers, the data its docstring is about,
    [interpolation_search] needs one estimate: for a target that is the
    [k]-th term of an arithmetic progression of at least two terms, and a
    division that gives the exact quotient [k] as it is, the estimated
    position is [k] and the search returns it after nine events. *)
Theorem interpolation_progression_one_estimate
    (int_quotient : Z -> Z -> Z) (first step : Z) (n : nat) (k : Z) :
  0 < step -> (2 <= n)%nat -> 0 <= k < Z.of_nat n ->
  int_quotient (step * k * (Z.of_nat n - 1)) (step * (Z.of_nat n - 1)) = k ->
  interpolation_search_int int_quotient (progression first step n)
    (first + step * k)
  = mkRun [Access 0; Access (Z.of_nat n - 1);
           Access 0; Access (Z.of_nat n - 1);
           Access 0; Access (Z.of_nat n - 1); Access 0;
           Divide false; Access k]
          (Ret k).
Proof.
  intros Hstep Hn Hk Hq.
  unfold interpolation_search_int, interpolation_search.
  rewrite progression_len.
  set (s := progression first step n).
  set (last := Z.of_nat n - 1).
  assert (G0 : py_getitem s 0 = Some first).
  { unfold s. rewrite progression_getitem by lia. f_equal. lia. }
  assert (Gn : py_getitem s last = Some (first + step * last))
    by (apply progression_getitem; lia).
  assert (Gk : py_getitem s k = Some (first + step * k))
    by (apply progression_getitem; lia).
  destruct (Z.to_nat (last - 0 + 1)) as [|fuel] eqn:Ef; [lia|].
  cbn [interpolation_loop].
  replace (0 <=? last) with true by (symmetry; apply Z.leb_le; lia).
  apply (bind_index_run _ _ _ _ _ _ G0).
  cbn [py_le py_eq py_lt py_sub py_mul_index py_is_zero py_int_quotient
       PyNum_int num_ord PyOrd_int].
  replace (first <=? first + step * k) with true
    by (symmetry; apply Z.leb_le; nia).
  apply (bind_index_run _ _ _ _ _ _ Gn).
  replace (first + step * k <=? first + step * last) with true
    by (symmetry; apply Z.leb_le; nia).
  apply (bind_index_run _ _ _ _ _ _ G0).
  apply (bind_index_run _ _ _ _ _ _ Gn).
  replace (first =? first + step * last) with false
    by (symmetry; apply Z.eqb_neq; nia).
  apply (bind_index_run _ _ _ _ _ _ G0).
  apply (bind_index_run _ _ _ _ _ _ Gn).
  apply (bind_index_run _ _ _ _ _ _ G0).
  apply (bind_truediv_run (num := PyNum_int int_quotient) _ _ k).
  - cbn. apply Z.eqb_neq. nia.
  - cbn. f_equal. etransitivity; [|exact Hq].
    f_equal; unfold last; ring.
  - replace (Z.max 0 (Z.min (0 + k) last)) with k by lia.
    apply (bind_index_run _ _ _ _ _ _ Gk).
    cbn [py_eq PyNum_int num_ord PyOrd_int]. rewrite Z.eqb_refl.
    reflexivity.
Qed.

Lemma interpolation_progression_one_estimate_witness :
  (0 < 3 /\ (2 <= 6)%nat /\ 0 <= 4 < Z.of_nat 6 /\
   Z.quot (3 * 4 * (Z.of_nat 6 - 1)) (3 * (Z.of_nat 6 - 1)) = 4) /\
  interpolation_search_int Z.quot (progression 10 3 6) (10 + 3 * 4)
  = mkRun [Access 0; Access (Z.of_nat 6 - 1);
           Access 0; Access (Z.of_nat 6 - 1);
           Access 0; Access (Z.of_nat 6 - 1); Access 0;
           Divide false; Access 4]
          (Ret 4).
Proof.
  split; [repeat split; try reflexivity; lia|].
  apply (interpolation_progression_one_estimate Z.quot 10 3 6 4);
    [lia | lia | lia | reflexivity].
Defined.

(** ** The command-line demo *)

Lemma insert_sorted_in (x y : Z) (l : list Z) :
  In y (insert_sorted x l) <-> y = x \/ In y l.
Proof.
  induction l as [|z tl IH]; cbn [insert_sorted].
  - cbn. intuition congruence.
  - destruct (x <=? z); cbn [In]; [|rewrite IH]; intuition congruence.
Qed.

Lemma insert_sorted_length (x : Z) (l : list Z) :
  List.length (insert_sorted x l) = S (List.length l).
Proof.
  induction l as [|z tl IH]; cbn [insert_sorted]; [reflexivity|].
  destruct (x <=? z); cbn [List.length]; [reflexivity | now rewrite IH].
Qed.

Lemma insert_sorted_sorted (x : Z) (l : list Z) :
  is_sorted l = true -> is_sorted (insert_sorted x l) = true.
Proof.
  induction l as [|z tl IH]; intros Hs; cbn [insert_sorted].
  - cbn. now rewrite Z.eqb_refl.
  - destruct (x <=? z) eqn:Hxz.
    + apply Z.leb_le in Hxz. change (is_sorted (x :: z :: tl)) with
        (py_eq x x && negb (py_lt z x) && is_sorted (z :: tl)).
      rewrite Hs. cbn [py_eq py_lt PyOrd_int]. rewrite Z.eqb_refl.
      replace (z <? x) with false by (symmetry; apply Z.ltb_ge; lia).
      reflexivity.
    + apply Z.leb_gt in Hxz.
      destruct (is_sorted_cons _ _ Hs) as [Hz [Hzw Htl]].
      specialize (IH Htl).
      change (is_sorted (z :: insert_sorted x tl)) with
        (py_eq z z
         && match insert_sorted x tl with
            | [] => true
            | y :: _ => negb (py_lt y z)
            end
         && is_sorted (insert_sorted x tl)).
      rewrite Hz, IH, andb_true_r. cbn [andb].
      destruct tl as [|w tl']; cbn [insert_sorted].
      * apply negb_true_iff, Z.ltb_ge. lia.
      * destruct (x <=? w).
        -- apply negb_true_iff, Z.ltb_ge. lia.
        -- now rewrite Hzw.
Qed.

Lemma py_sorted_sorted (numbers : list Z) :
  is_sorted (py_sorted numbers) = true.
Proof.
  induction numbers as [|x tl IH]; [reflexivity|].
  cbn [py_sorted fold_right]. now apply insert_sorted_sorted.
Qed.

Lemma py_sorted_in (numbers : list Z) (y : Z) :
  In y (py_sorted numbers) <-> In y numbers.
Proof.
  induction numbers as [|x tl IH]; [reflexivity|].
  cbn [py_sorted fold_right In]. rewrite insert_sorted_in.
  fold (py_sorted tl). rewrite IH. intuition congruence.
Qed.

Lemma py_sorted_len (numbers : list Z) :
  len (py_sorted numbers) = len numbers.
Proof.
  unfold len. f_equal.
  induction numbers as [|x tl IH]; [reflexivity|].
  cbn [py_sorted fold_right]. rewrite insert_sorted_length.
  fold (py_sorted tl). now rewrite IH.
Qed.

Lemma contains_in (s : list Z) (v : Z) : contains s v = true <-> In v s.
Proof.
  unfold contains. rewrite existsb_exists. split.
  - intros [x [Hin E]]. cbn in E. apply Z.eqb_eq in E. now subst.
  - intros Hin. exists v. split; [exact Hin | apply Z.eqb_refl].
Qed.

(** X14. The demo of [__main__]: given the numbers and the target typed
    in, it reports the target as found exactly when it is one of the
    numbers, and the position it prints is then a place of the target in
    the sorted numbers; otherwise it reports it as not found. *)
Theorem demo_reports (numbers : list Z) (target : Z) :
  is_sorted (py_sorted numbers) = true /\
  (In target numbers ->
   exists position,
     res (demo numbers target)
     = Ret (WasFoundAt target position (py_sorted numbers)) /\
     0 <= position < len numbers /\
     py_getitem (py_sorted numbers) position = Some target) /\
  (~ In target numbers ->
   res (demo numbers target)
   = Ret (WasNotFound target (py_sorted numbers))).
Proof.
  pose proof (py_sorted_sorted numbers) as Hs.
  destruct (binary_search_decides (py_sorted numbers) target Hs)
    as [Hfound Hmissing].
  split; [exact Hs | split].
  - intros Hin.
    destruct (Hfound (proj2 (contains_in _ _)
                        (proj2 (py_sorted_in _ _) Hin)))
      as [i [Ei [Hi Mi]]].
    exists i. rewrite py_sorted_len in Hi.
    split; [|split; [exact Hi|]].
    + unfold demo, bind. rewrite Ei. cbn [res].
      replace (i =? -1) with false by (symmetry; apply Z.eqb_neq; lia).
      reflexivity.
    + destruct (matches_inv _ _ _ Mi) as [y [Gy Ey]].
      cbn in Ey. apply Z.eqb_eq in Ey. now subst y.
  - intros Hout.
    assert (Hc : contains (py_sorted numbers) target = false).
    { destruct (contains (py_sorted numbers) target) eqn:Hc;
        [|reflexivity].
      exfalso. apply Hout. apply py_sorted_in, contains_in. exact Hc. }
    unfold demo, bind. rewrite (Hmissing Hc). reflexivity.
Qed.

(** ** Repeated values, values unequal to themselves *)

Lemma repeat_getitem {T} (v : T) (n : nat) (i : Z) :
  0 <= i < Z.of_nat n -> py_getitem (repeat v n) i = Some v.
Proof.
  intros Hi.
  assert (Hlen : len (repeat v n) = Z.of_nat n)
    by (unfold len; now rewrite repeat_length).
  rewrite getitem_nonneg by lia.
  destruct (nth_error (repeat v n) (Z.to_nat i)) as [x|] eqn:G.
  - apply nth_error_In, repeat_spec in G. now subst.
  - apply nth_error_None in G. rewrite repeat_length in G. lia.
Qed.

(** X15. Which of several equal elements is returned depends on the
    search.  On [n >= 1] copies of the target [binary_search] returns the
    middle index [(n - 1) // 2] after one probe, and [exponential_search]
    returns [0]: [binary_search] is not bound to the first occurrence,
    and the two searches return different indices once [n >= 3]. *)
Theorem constant_sequence_positions {T} {ord : PyOrd T}
    {laws : PyOrdLaws T} (v : T) (n : nat) :
  py_eq v v = true -> (1 <= n)%nat ->
  binary_search (repeat v n) v
  = mkRun [Access ((Z.of_nat n - 1) / 2)] (Ret ((Z.of_nat n - 1) / 2)) /\
  res (exponential_search (repeat v n) v) = Ret 0.
Proof.
  intros Hv Hn.
  assert (Hlen : len (repeat v n) = Z.of_nat n)
    by (unfold len; now rewrite repeat_length).
  pose proof (py_eq_not_lt _ _ Hv) as Hlt.
  assert (G0 : py_getitem (repeat v n) 0 = Some v)
    by (apply repeat_getitem; lia).
  split.
  - unfold binary_search. rewrite Hlen.
    destruct (Z.to_nat (Z.of_nat n - 1 - 0 + 1)) as [|fuel] eqn:Ef; [lia|].
    cbn [binary_search_loop].
    replace (0 <=? Z.of_nat n - 1) with true
      by (symmetry; apply Z.leb_le; lia).
    rewrite shiftr_1, Z.sub_0_r, Z.add_0_l.
    assert (Hmid : 0 <= (Z.of_nat n - 1) / 2 < Z.of_nat n).
    { split; [apply Z.div_pos; lia|].
      apply Z.div_lt_upper_bound; lia. }
    apply (bind_index_run _ _ _ _ _ _ (repeat_getitem v n _ Hmid)).
    rewrite Hv. reflexivity.
  - destruct n as [|m]; [lia|].
    cbn [repeat exponential_search] in *.
    change (v :: repeat v m) with (repeat v (S m)) in *.
    set (s := repeat v (S m)) in *.
    destruct (Z.to_nat (len s)) as [|fuel] eqn:Ef; [lia|].
    cbn [exponential_probe].
    assert (Hlast : forall fuel' right, right = 0 \/ right = 1 ->
              res (bounds_loop (S fuel') s v 0 right) = Ret 0).
    { intros fuel' right Hr. cbn [bounds_loop].
      replace (0 <=? right) with true by (symmetry; apply Z.leb_le; lia).
      replace (0 + Z.shiftr (right - 0) 1) with 0
        by (destruct Hr as [-> | ->]; reflexivity).
      rewrite (bind_index_some _ _ _ _ G0). cbn [res]. rewrite Hv.
      reflexivity. }
    destruct (1 <? len s) eqn:Hlen1.
    + apply Z.ltb_lt in Hlen1.
      rewrite (bind_index_some _ _ _ _
                 (repeat_getitem v (S m) 1 ltac:(lia))).
      cbn [trace res]. rewrite Hlt.
      unfold bind at 1. cbn [res trace ret lift].
      unfold binary_search_with_bounds.
      replace (Z.min 1 (len s - 1)) with 1 by lia.
      change (Z.shiftr 1 1) with 0.
      change (Z.to_nat (1 - 0 + 1)) with 2%nat.
      apply Hlast. now right.
    + apply Z.ltb_ge in Hlen1.
      unfold bind at 1. cbn [res trace ret lift].
      unfold binary_search_with_bounds.
      replace (Z.min 1 (len s - 1)) with 0 by lia.
      change (Z.shiftr 1 1) with 0.
      change (Z.to_nat (0 - 0 + 1)) with 1%nat.
      apply Hlast. now left.
Qed.

Lemma constant_sequence_positions_witness :
  (py_eq 2 2 = true /\ (1 <= 5)%nat) /\
  binary_search (repeat 2 5) 2
  = mkRun [Access ((Z.of_nat 5 - 1) / 2)] (Ret ((Z.of_nat 5 - 1) / 2)) /\
  res (exponential_search (repeat 2 5) 2) = Ret 0.
Proof.
  split; [split; [reflexivity | lia]|].
  apply (constant_sequence_positions 2 5); [reflexivity | lia].
Defined.

Lemma unequal_never_matches {T} {ord : PyOrd T} {laws : PyOrdLaws T}
    (s : list T) (v : T) (i : Z) :
  py_eq v v = false -> matches s v i = false.
Proof.
  intros Hv. destruct (matches s v i) eqn:M; [|reflexivity].
  destruct (matches_inv _ _ _ M) as [x [_ Ex]].
  pose proof (py_eq_trans _ _ _ (py_eq_sym _ _ Ex) Ex). congruence.
Qed.

Lemma sound_unequal {T} {ord : PyOrd T} {laws : PyOrdLaws T}
    (s : list T) (v : T) (r : result Z) :
  py_eq v v = false -> sound s v r -> r = Ret (-1).
Proof.
  intros Hv [i [-> [-> | [_ M]]]]; [reflexivity|].
  rewrite (unequal_never_matches s v i Hv) in M. discriminate M.
Qed.

(** X16. A target that is not [==] to itself, a float NaN, is never
    found, whatever the list holds (NaN included) and sorted or not:
    [binary_search] and [exponential_search] return [-1]. *)
Theorem unequal_target_not_found {T} {ord : PyOrd T} {laws : PyOrdLaws T}
    (s : list T) (v : T) :
  py_eq v v = false ->
  res (binary_search s v) = Ret (-1) /\
  res (exponential_search s v) = Ret (-1).
Proof.
  intros Hv. split; apply (sound_unequal s v _ Hv).
  - apply binary_search_sound.
  - apply exponential_search_sound.
Qed.

Lemma unequal_target_not_found_witness :
  py_eq nan nan = false /\
  res (binary_search [1%float; nan; 3%float] nan) = Ret (-1) /\
  res (exponential_search [1%float; nan; 3%float] nan) = Ret (-1).
Proof.
  split; [reflexivity|].
  apply (unequal_target_not_found [1%float; nan; 3%float] nan).
  reflexivity.
Defined.

Lemma float_unequal_is_nan (v : float) :
  PrimFloat.eqb v v = false -> Prim2SF v = S754_nan.
Proof.
  rewrite FloatAxioms.eqb_spec. unfold SFeqb.
  destruct (Prim2SF v) as [sg|sg| |sg m e]; try reflexivity;
    cbn [SFcompare].
  - discriminate.
  - destruct sg; discriminate.
  - destruct sg; rewrite Z.compare_refl, ?Pos.compare_refl;
      cbn [CompOpp]; try discriminate;
      rewrite ?Pos.compare_cont_refl; discriminate.
Qed.

Lemma float_leb_nan (x v : float) :
  Prim2SF v = S754_nan -> PrimFloat.leb x v = false.
Proof.
  intros Hv. rewrite FloatAxioms.leb_spec, Hv. unfold SFleb.
  destruct (Prim2SF x) as [sg|sg| |sg m e]; try reflexivity;
    destruct sg; reflexivity.
Qed.

(** X17. [interpolation_search] on floats gives a NaN target up at
    once: it returns [-1] after reading at most the first element, and
    never reaches the division. *)
Theorem interpolation_nan_target (s : list float) (v : float) :
  py_eq v v = false ->
  res (interpolation_search s v) = Ret (-1) /\
  Forall (fun e => e = Access 0) (trace (interpolation_search s v)).
Proof.
  intros Hv. apply float_unequal_is_nan in Hv.
  unfold interpolation_search.
  generalize (Z.to_nat (len s - 1 - 0 + 1)). intros fuel.
  assert (Hexit : forall lo : float,
            py_le lo v = false) by (intros lo; now apply float_leb_nan).
  destruct fuel; cbn [interpolation_loop];
    (destruct (0 <=? len s - 1) eqn:Hle;
     [apply Z.leb_le in Hle | split; [reflexivity | constructor]]);
    destruct (getitem_defined s 0 ltac:(lia)) as [lo Glo];
    rewrite (bind_index_some _ _ _ _ Glo), Hexit;
    (split; [reflexivity | repeat constructor]).
Qed.

Lemma interpolation_nan_target_witness :
  py_eq nan nan = false /\
  res (interpolation_search [1%float; 2%float] nan) = Ret (-1) /\
  Forall (fun e => e = Access 0)
    (trace (interpolation_search [1%float; 2%float] nan)).
Proof.
  split; [reflexivity|].
  apply (interpolation_nan_target [1%float; 2%float] nan). reflexivity.
Defined.
